(** * Speech-to-structured-record pipeline: a shallow embedding

    The development follows three source files:
    - [app/services/transcription.py]  (Model Inference Runner, Language
      Detection Engine),
    - [app/services/gemini_api.py]     (Resilient Remote Inference Client,
      Structured Field Extractor),
    - [app/routes/asr_routes.py]       (Pipeline Orchestrator).

    Python [str] values are modelled as [string]; the character level
    operations ([strip], [lower], the regular expression class [\s]) are
    the ones Python applies to code points below 128.  External
    collaborators (the speech models, the [langdetect] classifier and the
    remote generation service) are oracles carried in an environment
    record; every call to the remote service and every [asyncio.sleep] is
    recorded in an event log. *)

From Stdlib Require Import ZArith List Ascii String Bool Lia.
From stdpp Require Import base strings gmap.

Local Open Scope Z_scope.
Local Open Scope string_scope.
Local Open Scope list_scope.

(** ** Python string primitives *)

Module PyStr.

(** [str.isspace] on one character (code point below 128). *)
Definition is_space (c : ascii) : bool :=
  let n := nat_of_ascii c in
  ((9 <=? n)%nat && (n <=? 13)%nat) || ((28 <=? n)%nat && (n <=? 32)%nat).

Definition lower_char (c : ascii) : ascii :=
  let n := nat_of_ascii c in
  if ((65 <=? n)%nat && (n <=? 90)%nat)%bool then ascii_of_nat (n + 32) else c.

(** [s.lower()] *)
Fixpoint lower (s : string) : string :=
  match s with
  | EmptyString => EmptyString
  | String c s' => String (lower_char c) (lower s')
  end.

(** [s.lstrip()] *)
Fixpoint lstrip (s : string) : string :=
  match s with
  | EmptyString => EmptyString
  | String c s' => if is_space c then lstrip s' else s
  end.

(** [s.rstrip()] *)
Fixpoint rstrip (s : string) : string :=
  match s with
  | EmptyString => EmptyString
  | String c s' =>
      match rstrip s' with
      | EmptyString => if is_space c then EmptyString else String c EmptyString
      | r => String c r
      end
  end.

(** [s.strip()] *)
Definition strip (s : string) : string := rstrip (lstrip s).

(** [s.startswith(p)] *)
Fixpoint startswith (p s : string) : bool :=
  match p, s with
  | EmptyString, _ => true
  | String a p', String b s' => if Ascii.eqb a b then startswith p' s' else false
  | String _ _, EmptyString => false
  end.

(** [sub in s] *)
Fixpoint str_in (sub s : string) : bool :=
  startswith sub s ||
  match s with
  | EmptyString => false
  | String _ s' => str_in sub s'
  end.

(** Truthiness of a [str]: [bool(s)]. *)
Definition truthy (s : string) : bool :=
  match s with EmptyString => false | _ => true end.

(** [s.split(sep)] for a one-character separator. *)
Fixpoint split (sep : ascii) (s : string) : list string :=
  match s with
  | EmptyString => [EmptyString]
  | String c s' =>
      let r := split sep s' in
      if Ascii.eqb c sep then EmptyString :: r
      else match r with
           | hd :: tl => String c hd :: tl
           | [] => [String c EmptyString]
           end
  end.

(** [s.split(sep, 1)] when [sep in s]: the text before and after the
    first separator; [None] when the separator does not occur. *)
Fixpoint split_once (sep : ascii) (s : string) : option (string * string) :=
  match s with
  | EmptyString => None
  | String c s' =>
      if Ascii.eqb c sep then Some (EmptyString, s')
      else match split_once sep s' with
           | Some (k, v) => Some (String c k, v)
           | None => None
           end
  end.

(** [s.replace(c, '')] for a one-character [c]. *)
Fixpoint remove_char (c : ascii) (s : string) : string :=
  match s with
  | EmptyString => EmptyString
  | String a s' => if Ascii.eqb a c then remove_char c s' else String a (remove_char c s')
  end.

(** [sep.join(l)] *)
Fixpoint join (sep : string) (l : list string) : string :=
  match l with
  | [] => EmptyString
  | [x] => x
  | x :: rest => x +:+ sep +:+ join sep rest
  end.

Definition newline : ascii := ascii_of_nat 10.
Definition colon : ascii := ascii_of_nat 58.
Definition dquote : string := String (ascii_of_nat 34) EmptyString.
Definition nl : string := String newline EmptyString.

End PyStr.

Import PyStr.

(** ** app/services/transcription.py *)

Module Transcription.

(** One PCM sample: the bit pattern of a 32-bit float. *)
Definition Sample := Z.

(** The dict [{"raw": chunk, "sampling_rate": sr}] handed to a model. *)
Record AudioInput := { raw : list Sample; sampling_rate : Z }.

(** What a speech model hands back, by the shapes [run_pipeline_async]
    tells apart. *)
Inductive PipeValue :=
| PVTextDict (t : string)             (* a dict whose "text" entry is a str *)
| PVStr (s : string)                  (* a bare str *)
| PVNone                              (* None *)
| PVOther (as_str : option string).   (* anything else: [str(result)], [None] when [str] raises *)

Inductive PipeOutcome :=
| PipeRaises
| PipeReturns (result : PipeValue).

Definition Pipeline := AudioInput -> PipeOutcome.

(** The registry [asr_models]: a dict whose entries start out as [None]. *)
Definition registry_get (asr_models : gmap string (option Pipeline)) (key : string)
  : option Pipeline :=
  match asr_models !! key with
  | Some (Some p) => Some p
  | _ => None
  end.

(** The dict [{"text": ...}] returned by the runner. *)
Record TranscriptionResult := { text : string }.

(** Lines 48-62: one text out of whatever the model returned. *)
Definition standardize_output (result : PipeValue) : string :=
  match result with
  | PVTextDict t => strip t
  | PVStr s => strip s
  | PVNone => ""
  | PVOther (Some s) => strip s
  | PVOther None => ""
  end.

Definition run_pipeline_async (asr_models : gmap string (option Pipeline))
    (model_key : string) (audio_input : AudioInput) : TranscriptionResult :=
  match registry_get asr_models model_key with
  | None => {| text := "Error: Pipeline '" +:+ model_key +:+ "' not available." |}
  | Some pipeline =>
      match pipeline audio_input with
      | PipeReturns result =>
          let text_output := standardize_output result in
          {| text := text_output |}
      | PipeRaises =>
          {| text := "Error during transcription processing with '" +:+ model_key +:+ "'." |}
      end
  end.

(** [langdetect.detect_langs]: the ranked language codes, or an exception. *)
Inductive LangDetectOutcome :=
| LDLangs (langs : list string)
| LDLangDetectException
| LDOtherException.

(** One slot of [asyncio.gather(..., return_exceptions=True)]. *)
Inductive Gathered :=
| GResult (r : TranscriptionResult)
| GException.

(** Lines 131-156: the text kept from one model's result. *)
Definition detection_text (g : Gathered) : string :=
  match g with
  | GResult r => if str_in "Error:" (text r) then "" else text r
  | GException => ""
  end.

(** Lines 162-189: the top-ranked guess for one text, if any. *)
Definition top_guess (detect_langs : string -> LangDetectOutcome)
    (min_text_len_for_detect : Z) (t : string) : option string :=
  if truthy t && (min_text_len_for_detect <=? Z.of_nat (String.length t))%Z then
    match detect_langs t with
    | LDLangs (top :: _) => Some top
    | LDLangs [] => None
    | LDLangDetectException => None
    | LDOtherException => None
    end
  else None.

Definition lang_is (code : string) (guess : option string) : bool :=
  match guess with
  | Some g => String.eqb g code
  | None => false
  end.

Definition is_none (guess : option string) : bool :=
  match guess with Some _ => false | None => true end.

(** Lines 192-229: the decision table, first match wins. *)
Definition decision_logic (detected_lang_ml detected_lang_en : option string) : string :=
  if lang_is "ml" detected_lang_ml && negb (lang_is "en" detected_lang_en) then "ml"
  else if lang_is "en" detected_lang_en && negb (lang_is "ml" detected_lang_ml) then "en"
  else if lang_is "ml" detected_lang_ml && lang_is "ml" detected_lang_en then "ml"
  else if lang_is "en" detected_lang_ml && lang_is "en" detected_lang_en then "en"
  else if lang_is "ml" detected_lang_ml && is_none detected_lang_en then "ml"
  else if lang_is "en" detected_lang_en && is_none detected_lang_ml then "en"
  else "en".

(** [int(chunk_size_ms / 1000 * sr)], with the quotient taken exactly. *)
Definition chunk_size_samples (chunk_size_ms sr : Z) : Z :=
  Z.quot (chunk_size_ms * sr) 1000.

(** The settings read through [current_app.config.get]. *)
Record DetectConfig := {
  CHUNK_SIZE_MS : option Z;
  MIN_TEXT_LEN_FOR_DETECT : option Z
}.

Definition detect_language_from_audio
    (asr_models : gmap string (option Pipeline))
    (detect_langs : string -> LangDetectOutcome)
    (config : DetectConfig)
    (audio_data : list Sample) (sr : Z) : string :=
  let chunk_size_ms := default 5000 (CHUNK_SIZE_MS config) in
  let min_text_len_for_detect := default 10 (MIN_TEXT_LEN_FOR_DETECT config) in
  if (length audio_data =? 0)%nat then "en"
  else if (sr <=? 0)%Z then "en"
  else
    let n := chunk_size_samples chunk_size_ms sr in
    let chunk :=
      if (n <=? 0)%Z then audio_data
      else if (Z.of_nat (length audio_data) <=? n)%Z then audio_data
      else take (Z.to_nat n) audio_data in
    if (length chunk =? 0)%nat then "en"
    else
      let ml_model_key := "whisper_ml" in
      let en_model_key := "whisper_en" in
      match registry_get asr_models ml_model_key, registry_get asr_models en_model_key with
      | Some _, Some _ =>
          let audio_input := {| raw := chunk; sampling_rate := sr |} in
          let ml_result := GResult (run_pipeline_async asr_models ml_model_key audio_input) in
          let en_result := GResult (run_pipeline_async asr_models en_model_key audio_input) in
          let ml_text := detection_text ml_result in
          let en_text := detection_text en_result in
          let detected_lang_ml := top_guess detect_langs min_text_len_for_detect ml_text in
          let detected_lang_en := top_guess detect_langs min_text_len_for_detect en_text in
          decision_logic detected_lang_ml detected_lang_en
      | _, _ => "en"
      end.

End Transcription.

(** ** app/services/gemini_api.py *)

Module GeminiApi.

(** *** The remote service and the effects of a call *)

(** A decoded JSON document, as [response.json()] returns it. *)
#[local] Unset Elimination Schemes.
Inductive Json :=
| JNull
| JBool (b : bool)
| JNum (n : Z)
| JStr (s : string)
| JList (items : list Json)
| JDict (entries : list (string * Json)).
#[local] Set Elimination Schemes.

(** The [Retry-After] header as [int(e.headers.get("Retry-After", ...))]
    sees it: missing, a text [int] accepts, or a text on which [int]
    raises [ValueError] with the given message. *)
Inductive RetryAfter :=
| RA_absent
| RA_int (R : Z)
| RA_invalid (msg : string).

(** What one [session.post] attempt amounts to, up to and including
    [response.json()], by the [except] clause that receives it. *)
Inductive Outcome :=
| ClientResponseError (status : Z) (retry_after : RetryAfter)
| TimeoutError
| ClientError
| OtherException
| JsonResult (result : Json).

Inductive Fn := FnTranslate | FnExtractEmr | FnGenerateSuggestions.

Inductive Event :=
| Post (prompt : string)      (* one request sent to the service *)
| Sleep (seconds : Z)         (* one [asyncio.sleep] *)
| Enter (f : Fn).             (* one call of a function built on the client *)

(** The service answers a request knowing everything that happened so far. *)
Definition Service := list Event -> string -> Outcome.

Inductive Exn :=
| ValueError (msg : string)
| BadRequest (description : string)
| InternalServerError (description : string).

Inductive Res (A : Type) :=
| Returned (a : A)
| Raised (e : Exn).
Arguments Returned {A} a.
Arguments Raised {A} e.

(** Computations that may raise and that extend the event log. *)
Definition M (A : Type) : Type := list Event -> Res A * list Event.

Definition ret {A} (a : A) : M A := fun log => (Returned a, log).

Definition raise {A} (e : Exn) : M A := fun log => (Raised e, log).

Definition bind {A B} (m : M A) (k : A -> M B) : M B :=
  fun log =>
    match m log with
    | (Returned a, log') => k a log'
    | (Raised e, log') => (Raised e, log')
    end.

(** [try: m except Exception as e: h e] *)
Definition try_except {A} (m : M A) (h : Exn -> M A) : M A :=
  fun log =>
    match m log with
    | (Returned a, log') => (Returned a, log')
    | (Raised e, log') => h e log'
    end.

Definition emit (e : Event) : M unit := fun log => (Returned tt, (log ++ [e])%list).

Definition sleep (seconds : Z) : M unit := emit (Sleep seconds).

Definition post (gemini : Service) (prompt : string) : M Outcome :=
  fun log => (Returned (gemini log prompt), (log ++ [Post prompt])%list).

Declare Scope py_scope.
Delimit Scope py_scope with py.
Notation "x <- m ;; k" := (bind m (fun x => k))
  (at level 100, m at next level, right associativity) : py_scope.
Notation "m ;;; k" := (bind m (fun _ => k))
  (at level 100, right associativity) : py_scope.
Local Open Scope py_scope.

(** *** Defensive parsing of a response (lines 45-85) *)

Definition json_truthy (j : Json) : bool :=
  match j with
  | JNull => false
  | JBool b => b
  | JNum n => negb (n =? 0)%Z
  | JStr s => truthy s
  | JList l => negb (length l =? 0)%nat
  | JDict d => negb (length d =? 0)%nat
  end.

Definition is_list (j : Json) : bool :=
  match j with JList _ => true | _ => false end.

Definition is_dict (j : Json) : bool :=
  match j with JDict _ => true | _ => false end.

Fixpoint assoc_get {V} (key : string) (d : list (string * V)) : option V :=
  match d with
  | [] => None
  | (k, v) :: rest => if String.eqb k key then Some v else assoc_get key rest
  end.

(** [obj.get(key)]: [None] stands for the [AttributeError] raised when
    [obj] is not a dict; a missing key yields Python's [None]. *)
Definition json_get (key : string) (obj : Json) : option Json :=
  match obj with
  | JDict d => Some (default JNull (assoc_get key d))
  | _ => None
  end.

Inductive Parsed :=
| PText (t : string)    (* [return text.strip()] *)
| PMalformed            (* one of the layered checks failed: the [continue] path *)
| PException.           (* an exception escaped the parsing: the [except Exception] path *)

Definition parse_response (result : Json) : Parsed :=
  match json_get "candidates" result with
  | None => PException
  | Some candidates =>
      match candidates with
      | JList (first_candidate :: _) =>
          match json_get "content" first_candidate with
          | None => PException
          | Some content =>
              if negb (json_truthy content) || negb (is_dict content) then PMalformed
              else
                match json_get "parts" content with
                | Some (JList (first_part :: _)) =>
                    match json_get "text" first_part with
                    | None => PException
                    | Some JNull => PMalformed
                    | Some (JStr t) => PText (strip t)
                    | Some _ => PException
                    end
                | Some _ => PMalformed
                | None => PException
                end
          end
      | _ =>
          (* not candidates, not a list, or an empty list *)
          match json_get "promptFeedback" result with
          | Some prompt_feedback =>
              if json_truthy prompt_feedback then
                match json_get "blockReason" prompt_feedback with
                | Some _ => PMalformed
                | None => PException
                end
              else PMalformed
          | None => PException
          end
      end
  end.

(** *** call_gemini_api *)

(** [range(n)] *)
Definition py_range (n : Z) : list Z := map Z.of_nat (seq 0 (Z.to_nat n)).

(** The body of [for attempt in range(retries + 1)], with the running
    value of the local variable [delay]. *)
Fixpoint attempt_loop (gemini : Service) (prompt : string) (retries : Z)
    (attempts : list Z) (delay : Z) : M (option string) :=
  match attempts with
  | [] => ret None
  | attempt :: rest =>
      outcome <- post gemini prompt ;;
      match outcome with
      | JsonResult result =>
          match parse_response result with
          | PText t => ret (Some t)
          | PMalformed =>
              (if (attempt <? retries)%Z then sleep delay else ret tt) ;;;
              attempt_loop gemini prompt retries rest delay
          | PException =>
              if (retries <=? attempt)%Z then ret None
              else sleep delay ;;; attempt_loop gemini prompt retries rest delay
          end
      | ClientResponseError status retry_after_header =>
          if (status =? 429)%Z && (attempt <? retries)%Z then
            match retry_after_header with
            | RA_absent =>
                let retry_after := (delay * 2)%Z in
                sleep retry_after ;;; attempt_loop gemini prompt retries rest retry_after
            | RA_int retry_after =>
                sleep retry_after ;;; attempt_loop gemini prompt retries rest retry_after
            | RA_invalid msg => raise (ValueError msg)
            end
          else if (500 <=? status)%Z && (status <? 600)%Z && (attempt <? retries)%Z then
            sleep delay ;;; attempt_loop gemini prompt retries rest (delay * 2)%Z
          else ret None
      | TimeoutError =>
          if (attempt <? retries)%Z then
            sleep delay ;;; attempt_loop gemini prompt retries rest (delay * 2)%Z
          else ret None
      | ClientError =>
          if (attempt <? retries)%Z then
            sleep delay ;;; attempt_loop gemini prompt retries rest (delay * 2)%Z
          else ret None
      | OtherException =>
          if (retries <=? attempt)%Z then ret None
          else sleep delay ;;; attempt_loop gemini prompt retries rest delay
      end
  end.

(** The part of the configuration and of the outside world the client uses. *)
Record Remote := {
  GEMINI_API_URL : option string;
  gemini : Service
}.

Definition call_gemini_api (remote : Remote) (prompt : string) (retries delay : Z)
  : M (option string) :=
  match GEMINI_API_URL remote with
  | None => ret None
  | Some api_url =>
      if negb (truthy api_url) then ret None
      else attempt_loop (gemini remote) prompt retries (py_range (retries + 1)) delay
  end.

(** *** translate_with_gemini *)

Definition translate_prompt (text : string) : string :=
  join nl [
    "";
    "    Translate the following Malayalam medical text to English accurately and completely.";
    "    Do not summarize or omit any details. Preserve medical terminology.";
    "    Maintain the original context and meaning. If the input text is already substantially in English, return it as is with minimal changes.";
    "";
    "    Input Text:";
    "    ---";
    "    " +:+ text;
    "    ---";
    "";
    "    English Translation:";
    "    " ].

(** Length of the label [(english translation:|---)] matched, ignoring
    case, at the head of [s]. *)
Definition label_length (s : string) : option nat :=
  if startswith "english translation:" (lower s)
  then Some (String.length "english translation:")
  else if startswith "---" s then Some (String.length "---")
  else None.

(** [re.sub(r'^(english translation:|---)\s*', '', s, flags=re.IGNORECASE | re.MULTILINE)],
    read left to right.  [at_bol]: the previous character is a newline
    (or there is none); [skip]: characters of a matched label still to
    drop; [in_ws]: the scan is inside the [\s*] that follows a label. *)
Fixpoint sub_label (at_bol : bool) (skip : nat) (in_ws : bool) (s : string) : string :=
  match s with
  | EmptyString => EmptyString
  | String c s' =>
      match skip with
      | S k => sub_label false k (k =? 0)%nat s'
      | O =>
          if in_ws && is_space c then sub_label (Ascii.eqb c newline) 0 true s'
          else
            match (if at_bol then label_length s else None) with
            | Some (S k) => sub_label false k (k =? 0)%nat s'
            | _ => String c (sub_label (Ascii.eqb c newline) 0 false s')
            end
      end
  end.

Definition translate_with_gemini (remote : Remote) (text : string) : M string :=
  emit (Enter FnTranslate) ;;;
  if negb (truthy text) then ret "Translation unavailable: No input text"
  else
    translated <- call_gemini_api remote (translate_prompt text) 2 2 ;;
    match translated with
    | Some t =>
        if truthy t then ret (strip (sub_label true 0 false t))
        else ret "Translation unavailable"
    | None => ret "Translation unavailable"
    end.

(** *** Python dicts with [str] keys and values, in insertion order *)

Definition Dict := list (string * string).

Definition dict_mem (key : string) (d : Dict) : bool :=
  match assoc_get key d with Some _ => true | None => false end.

(** [d[key] = value] *)
Fixpoint dict_set (key value : string) (d : Dict) : Dict :=
  match d with
  | [] => [(key, value)]
  | (k, v) :: rest =>
      if String.eqb k key then (k, value) :: rest else (k, v) :: dict_set key value rest
  end.

Definition dict_keys (d : Dict) : list string := map fst d.
Definition dict_values (d : Dict) : list string := map snd d.

(** [key in required_keys] *)
Definition list_mem (key : string) (l : list string) : bool :=
  existsb (String.eqb key) l.

(** [next((req_key for req_key in keys if req_key.lower() == k.lower()), None)] *)
Definition matched_key (keys : list string) (k : string) : option string :=
  List.find (fun req_key => String.eqb (lower req_key) (lower k)) keys.

(** The closing loop of both extractors:
    [for key in keys: if key not in d: d[key] = sentinel]. *)
Definition fill_missing (sentinel : string) (keys : list string) (d : Dict) : Dict :=
  fold_left (fun d key => if dict_mem key d then d else dict_set key sentinel d) keys d.

(** *** extract_emr *)

Definition emr_prompt (text : string) : string :=
  join nl [
    "";
    "    Analyze the following transcribed medical text. Extract the key Electronic Medical Record (EMR) data points.";
    "    Return the extracted information strictly as KEY: VALUE pairs, one pair per line.";
    "    Do not include any introductory sentences, explanations, or extraneous text like "
      +:+ dquote +:+ "Extracted EMR Data:" +:+ dquote +:+ ".";
    "";
    "    Extract these specific fields:";
    "    - Presenting Complaint:";
    "    - History of Presenting Illness:";
    "    - Past Medical History:";
    "    - Current Medications:";
    "    - Allergies:";
    "";
    "    If a specific field is not mentioned in the text, return the key with the value "
      +:+ dquote +:+ "Not mentioned" +:+ dquote +:+ ".";
    "    Do not infer or make up information. Only extract explicitly stated details.";
    "";
    "    Source Text:";
    "    ---";
    "    " +:+ text;
    "    ---";
    "    " ].

Definition required_keys : list string :=
  [ "Presenting Complaint"; "History of Presenting Illness";
    "Past Medical History"; "Current Medications"; "Allergies" ].

(** Lines 201-217: one line of the answer. *)
Definition emr_line (emr_data : Dict) (line : string) : Dict :=
  let line := strip line in
  match split_once colon line with
  | Some (key, value) =>
      let key := strip key in
      let value := strip value in
      let normalized_key := strip (remove_char colon key) in
      let matched := matched_key required_keys normalized_key in
      match matched with
      | Some mk =>
          if truthy mk && negb (dict_mem mk emr_data) then dict_set mk value emr_data
          else if list_mem key required_keys && negb (dict_mem key emr_data)
          then dict_set key value emr_data
          else emr_data
      | None =>
          if list_mem key required_keys && negb (dict_mem key emr_data)
          then dict_set key value emr_data
          else emr_data
      end
  | None => emr_data
  end.

(** Lines 192-226: from the client's answer to the returned dict. *)
Definition emr_of_result (result : option string) : Dict :=
  let emr_data :=
    match result with
    | Some r =>
        if truthy r then fold_left emr_line (split newline (strip r)) []
        else []
    | None => []
    end in
  fill_missing "Not mentioned" required_keys emr_data.

Definition extract_emr (remote : Remote) (text : string) : M Dict :=
  emit (Enter FnExtractEmr) ;;;
  if negb (truthy text) then ret []
  else
    result <- call_gemini_api remote (emr_prompt text) 2 2 ;;
    ret (emr_of_result result).

(** *** generate_suggestions *)

Definition suggestions_prompt (emr_string : string) : string :=
  join nl [
    "";
    "    Based on the following summarized Electronic Medical Record (EMR) data, provide concise potential medical suggestions.";
    "    Return the suggestions strictly as KEY: VALUE pairs, one pair per line.";
    "    Do not include any introductory sentences, explanations, or extraneous text like "
      +:+ dquote +:+ "Medical Suggestions:" +:+ dquote +:+ ".";
    "";
    "    Provide suggestions for these categories if relevant based on the input:";
    "    - Differential Diagnosis:";
    "    - Further Investigations:";
    "    - Potential Treatment Options:";
    "    - Specialist Referrals (if applicable):";
    "    - Follow-up Recommendations:";
    "";
    "    EMR Data Summary:";
    "    ---";
    "    " +:+ emr_string;
    "    ---";
    "    " ].

Definition required_suggestion_keys : list string :=
  [ "Differential Diagnosis"; "Further Investigations"; "Potential Treatment Options";
    "Specialist Referrals (if applicable)"; "Follow-up Recommendations" ].

(** Lines 269-283: one line of the answer. *)
Definition suggestion_line (suggestions : Dict) (line : string) : Dict :=
  let line := strip line in
  match split_once colon line with
  | Some (key, value) =>
      let key := remove_char colon (strip key) in
      let value := strip value in
      match matched_key required_suggestion_keys key with
      | Some mk =>
          if truthy mk && negb (dict_mem mk suggestions) then dict_set mk value suggestions
          else if list_mem key required_suggestion_keys && negb (dict_mem key suggestions)
          then dict_set key value suggestions
          else suggestions
      | None =>
          if list_mem key required_suggestion_keys && negb (dict_mem key suggestions)
          then dict_set key value suggestions
          else suggestions
      end
  | None => suggestions
  end.

Definition suggestions_of_result (result : option string) : Dict :=
  let suggestions :=
    match result with
    | Some r =>
        if truthy r then fold_left suggestion_line (split newline (strip r)) []
        else []
    | None => []
    end in
  fill_missing "Not specified" required_suggestion_keys suggestions.

Definition is_not_mentioned (v : string) : bool :=
  String.eqb (lower v) "not mentioned".

Definition generate_suggestions (remote : Remote) (emr_data : Dict) : M Dict :=
  emit (Enter FnGenerateSuggestions) ;;;
  if (length emr_data =? 0)%nat || forallb is_not_mentioned (dict_values emr_data)
  then ret []
  else
    let emr_string :=
      join nl (map (fun kv => "- " +:+ fst kv +:+ ": " +:+ snd kv)
                   (List.filter (fun kv => negb (is_not_mentioned (snd kv))) emr_data)) in
    if negb (truthy emr_string) then ret []
    else
      result <- call_gemini_api remote (suggestions_prompt emr_string) 2 2 ;;
      ret (suggestions_of_result result).

End GeminiApi.

(** ** app/routes/asr_routes.py *)

Module AsrRoutes.

Import Transcription GeminiApi.
Local Open Scope py_scope.

Definition ALLOWED_LANGUAGES : gset string := {[ "en"; "ml" ]}.

Definition allowed_language (l : string) : bool :=
  bool_decide (l ∈ ALLOWED_LANGUAGES).

(** Everything the route reaches through module globals and
    [current_app.config]. *)
Record Env := {
  asr_models : gmap string (option Pipeline);
  detect_langs : string -> LangDetectOutcome;
  config : DetectConfig;
  remote : Remote
}.

(** The dict handed to [jsonify]. *)
Record ResponseData := {
  status : string;
  detection_method : string;
  effective_language : string;
  raw_transcription : string;
  processed_text : string;
  emr : Dict;
  suggestions : Dict
}.

(** [str(e)] for the exceptions of the model. *)
Definition exn_str (e : Exn) : string :=
  match e with
  | ValueError msg => msg
  | BadRequest description => "400 Bad Request: " +:+ description
  | InternalServerError description => "500 Internal Server Error: " +:+ description
  end.

(** Lines 60-71: the optional form field [language].  The order in which
    Python lists the members of a set in the message is not fixed;
    [elements] stands for it. *)
Definition validate_language (specified_language : option string)
  : Res (option string * string) :=
  match specified_language with
  | Some l =>
      if truthy l then
        let l := strip (lower l) in
        if allowed_language l then Returned (Some l, "specified")
        else Raised (BadRequest ("Invalid language specified. Allowed values are: "
                                   +:+ join ", " (elements ALLOWED_LANGUAGES)))
      else Returned (None, "automatic")
  | None => Returned (None, "automatic")
  end.

(** Step 3 (lines 113-125): the language, detected unless specified. *)
Definition determine_language (env : Env) (effective_language : option string)
    (detection_method : string) (audio_data : list Sample) (sr : Z) : string * string :=
  match effective_language with
  | None =>
      let detected_lang :=
        detect_language_from_audio (asr_models env) (detect_langs env) (config env)
                                   audio_data sr in
      if negb (truthy detected_lang) || negb (allowed_language detected_lang)
      then ("en", "automatic")
      else (detected_lang, "automatic")
  | Some l => (l, detection_method)
  end.

(** The model key step 4 runs for a language (lines 134 and 166). *)
Definition transcription_model_key (effective_language : string) : string :=
  if String.eqb effective_language "ml" then "whisper_ml" else "whisper_en".

(** Step 4 (lines 128-179): transcription and, for Malayalam, translation.
    Yields [(effective_language, raw_transcription, final_english_text)]. *)
Definition transcribe_and_translate (env : Env) (effective_language : string)
    (audio_input_for_pipeline : AudioInput) : M (string * string * string) :=
  if String.eqb effective_language "ml" then
    let transcription_result :=
      run_pipeline_async (asr_models env) "whisper_ml" audio_input_for_pipeline in
    let raw_transcription := strip (text transcription_result) in
    if str_in "Error:" raw_transcription then
      raise (InternalServerError ("Transcription failed: " +:+ raw_transcription))
    else if negb (truthy raw_transcription) then
      ret (effective_language, raw_transcription, "")
    else
      final_english_text <-
        try_except
          (translated <- translate_with_gemini (remote env) raw_transcription ;;
           if negb (truthy translated) || str_in "unavailable" (lower translated)
           then ret "" else ret translated)
          (fun _ => ret "") ;;
      ret (effective_language, raw_transcription, final_english_text)
  else
    let effective_language := "en" in
    let transcription_result :=
      run_pipeline_async (asr_models env) "whisper_en" audio_input_for_pipeline in
    let raw_transcription := strip (text transcription_result) in
    let final_english_text := raw_transcription in
    if str_in "Error:" raw_transcription then
      raise (InternalServerError ("Transcription failed: " +:+ raw_transcription))
    else ret (effective_language, raw_transcription, final_english_text).

(** Lines 208-211: the meaningfulness gate. *)
Definition is_meaningful_emr (emr_data : Dict) : bool :=
  existsb (fun v => truthy v && negb (list_mem (lower v) ["not mentioned"; "none"; "n/a"; ""]))
          (dict_values emr_data).

Definition gemini_failure (e : Exn) : Dict :=
  [("error", "Failed to process text with Gemini: " +:+ exn_str e)].

(** Step 5 (lines 182-238): record extraction and suggestions.
    Yields [(emr_data, suggestions)]. *)
Definition emr_and_suggestions (env : Env) (final_english_text : string) : M (Dict * Dict) :=
  if truthy final_english_text && negb (str_in "Error:" final_english_text) then
    try_except
      (emr_data <- extract_emr (remote env) final_english_text ;;
       if negb (length emr_data =? 0)%nat then
         if is_meaningful_emr emr_data then
           try_except
             (suggestions <- generate_suggestions (remote env) emr_data ;;
              ret (emr_data, suggestions))
             (fun gemini_error => ret (emr_data, gemini_failure gemini_error))
         else
           ret (emr_data,
                [("info", "Suggestions not generated due to non-informative EMR data.")])
       else
         ret (emr_data,
              [("info", "Suggestions not generated because EMR extraction was empty.")]))
      (fun gemini_error => ret ([], gemini_failure gemini_error))
  else
    ret ([("info", "EMR not generated due to issues in prior steps.")],
         [("info", "Suggestions not generated due to issues in prior steps.")]).

(** Lines 255-278: the [except] clauses that close the route. *)
Definition route_except (e : Exn) : Exn :=
  match e with
  | BadRequest description => BadRequest description
  | ValueError msg => BadRequest ("Invalid audio data or processing failed: " +:+ msg)
  | InternalServerError description => InternalServerError description
  end.

(** Steps 3 to 6 (lines 113-252), entered with the audio as loaded by
    [librosa.load]. *)
Definition process_audio (env : Env) (effective_language : option string)
    (detection_method : string) (audio_data : list Sample) (sr : Z) : M ResponseData :=
  if (length audio_data =? 0)%nat then
    raise (BadRequest "Invalid audio data: Could not load or data is empty after conversion.")
  else
    let audio_input_for_pipeline := {| raw := audio_data; sampling_rate := sr |} in
    let '(effective_language, detection_method) :=
      determine_language env effective_language detection_method audio_data sr in
    step4 <- transcribe_and_translate env effective_language audio_input_for_pipeline ;;
    let '(effective_language, raw_transcription, final_english_text) := step4 in
    step5 <- emr_and_suggestions env final_english_text ;;
    let '(emr_data, suggestions) := step5 in
    ret {| status := "success";
           detection_method := detection_method;
           effective_language := effective_language;
           raw_transcription := raw_transcription;
           processed_text := final_english_text;
           emr := emr_data;
           suggestions := suggestions |}.

(** The route from the validation of [language] on; saving, converting
    and loading the upload are the collaborators' and have succeeded. *)
Definition transcribe_audio_route (env : Env) (specified_language : option string)
    (audio_data : list Sample) (sr : Z) : M ResponseData :=
  match validate_language specified_language with
  | Raised e => raise e
  | Returned (effective_language, detection_method) =>
      try_except
        (process_audio env effective_language detection_method audio_data sr)
        (fun e => raise (route_except e))
  end.

End AsrRoutes.

(** ** Notions used to state the properties *)

Module Spec.

Import Transcription GeminiApi AsrRoutes.

(** The trimmed text the Transcribed stage obtains for a language. *)
Definition stage_text (env : Env) (lang : string) (input : AudioInput) : string :=
  strip (text (run_pipeline_async (asr_models env) (transcription_model_key lang) input)).

(** A value of the placeholder set, compared ignoring case. *)
Definition is_placeholder (v : string) : bool :=
  list_mem (lower v) ["not mentioned"; "none"; "n/a"; ""].

Definition is_post (e : Event) : bool :=
  match e with Post _ => true | _ => false end.

(** Number of requests sent so far. *)
Definition count_posts (log : list Event) : nat := length (List.filter is_post log).

(** The durations of the sleeps, in order. *)
Fixpoint sleeps (log : list Event) : list Z :=
  match log with
  | [] => []
  | Sleep d :: rest => d :: sleeps rest
  | _ :: rest => sleeps rest
  end.

(** The line, read as [emr_line] reads it, carries the key [k]: what
    precedes its first colon is [k] up to case and surrounding blanks. *)
Definition line_speaks_for (k line : string) : bool :=
  match split_once colon (strip line) with
  | Some (key, _) =>
      String.eqb (lower k) (lower (strip (remove_char colon (strip key))))
      || String.eqb (strip key) k
  | None => false
  end.

(** The client's answer has a line for the key [k]. *)
Definition produced (k : string) (result : option string) : bool :=
  match result with
  | Some r => truthy r && existsb (line_speaks_for k) (split newline (strip r))
  | None => false
  end.

(** The post-condition of record extraction for a given answer of the
    client: exactly the required keys, each once, and the sentinel under
    every key the answer has no line for. *)
Definition full_record (result : option string) (emr_data : Dict) : Prop :=
  NoDup (dict_keys emr_data) /\
  (forall k, In k (dict_keys emr_data) <-> In k required_keys) /\
  (forall k, In k required_keys -> produced k result = false ->
             assoc_get k emr_data = Some "Not mentioned").

(** Record extraction returns a mapping over exactly the required keys. *)
Definition returns_required_keys (remote : Remote) (text : string) (log : list Event) : Prop :=
  exists emr_data log',
    extract_emr remote text log = (Returned emr_data, log') /\
    (forall k, In k (dict_keys emr_data) <-> In k required_keys).

Definition is_server_error (o : Outcome) : Prop :=
  exists status header, o = ClientResponseError status header /\ (500 <= status < 600)%Z.

(** [n] requests separated by sleeps that start at [delay] and double. *)
Fixpoint backoff_trace (prompt : string) (n : nat) (delay : Z) : list Event :=
  match n with
  | O => []
  | S k =>
      Post prompt ::
      match k with
      | O => []
      | S _ => Sleep delay :: backoff_trace prompt k (delay * 2)
      end
  end.

(** The second half of the rate-limit rule read with the delay the call
    was configured with: every rate-limited attempt without [Retry-After]
    that leaves budget is followed by a sleep of twice that delay. *)
Definition absent_header_doubles_configured_delay
    (remote : Remote) (prompt : string) (retries delay : Z) : Prop :=
  forall res pre tail,
    call_gemini_api remote prompt retries delay [] = (res, pre ++ Post prompt :: tail) ->
    gemini remote pre prompt = ClientResponseError 429 RA_absent ->
    (Z.of_nat (count_posts pre) < retries)%Z ->
    exists tail', tail = Sleep (delay * 2) :: tail'.

End Spec.

(** ** Concrete environments *)

Module Scenarios.

Import Transcription GeminiApi AsrRoutes Spec.

(** A well-formed answer of the service carrying the text [t]. *)
Definition ok_json (t : string) : Json :=
  JDict [("candidates",
          JList [JDict [("content",
                         JDict [("parts", JList [JDict [("text", JStr t)]])])]])].

Definition sample_audio : list Sample := [0%Z; 1%Z; 2%Z].

Definition default_config : DetectConfig :=
  {| CHUNK_SIZE_MS := Some 30000%Z; MIN_TEXT_LEN_FOR_DETECT := None |}.

Definition always (o : Outcome) : Remote :=
  {| GEMINI_API_URL := Some "https://example.invalid/generate"; gemini := fun _ _ => o |}.

Definition make_env (models : gmap string (option Pipeline)) (r : Remote) : Env :=
  {| asr_models := models;
     detect_langs := fun _ => LDLangs ["en"];
     config := default_config;
     remote := r |}.

(** A registry whose English model raises on every input. *)
Definition raising_models : gmap string (option Pipeline) :=
  {[ "whisper_en" := Some (fun _ => PipeRaises) ]}.

(** The registry as [models.py] creates it: no model loaded. *)
Definition unloaded_models : gmap string (option Pipeline) :=
  {[ "whisper_en" := None; "whisper_ml" := None ]}.

(** Speech that itself contains the characters of the marker. *)
Definition dictation_models : gmap string (option Pipeline) :=
  {[ "whisper_en" :=
       Some (fun _ => PipeReturns (PVTextDict " The monitor showed Error: E4 twice. ")) ]}.

Definition malayalam_models : gmap string (option Pipeline) :=
  {[ "whisper_ml" := Some (fun _ => PipeReturns (PVStr "rogikku pani undu")) ]}.

Definition english_models : gmap string (option Pipeline) :=
  {[ "whisper_en" := Some (fun _ => PipeReturns (PVStr "good morning doctor")) ]}.

Definition unloaded_env : Env := make_env unloaded_models (always TimeoutError).

Definition raising_env : Env := make_env raising_models (always TimeoutError).

Definition dictation_env : Env := make_env dictation_models (always TimeoutError).

Definition unavailable_env : Env :=
  make_env malayalam_models
    (always (JsonResult (ok_json
       "The doctor was unavailable on Monday; the patient has had a fever since."))).

(** A service that answers 503, then 429 without [Retry-After], then well. *)
Definition flaky_remote : Remote :=
  {| GEMINI_API_URL := Some "https://example.invalid/generate";
     gemini := fun log _ =>
       match count_posts log with
       | 0%nat => ClientResponseError 503 RA_absent
       | 1%nat => ClientResponseError 429 RA_absent
       | _ => JsonResult (ok_json "ok")
       end |}.

(** A service that answers 429 with [Retry-After: 7] once, then well. *)
Definition throttling_remote : Remote :=
  {| GEMINI_API_URL := Some "https://example.invalid/generate";
     gemini := fun log _ =>
       match count_posts log with
       | 0%nat => ClientResponseError 429 (RA_int 7)
       | _ => JsonResult (ok_json "ok")
       end |}.

Definition garbage_remote : Remote :=
  always (JsonResult (ok_json "I am sorry, I cannot help with that request")).

Definition sentinel_answer : string :=
  join nl [ "Presenting Complaint: Not mentioned";
            "History of Presenting Illness: NONE";
            "Past Medical History: n/a";
            "Current Medications: not mentioned";
            "Allergies:" ].

Definition sentinel_env : Env :=
  make_env english_models (always (JsonResult (ok_json sentinel_answer))).

End Scenarios.

(** ** app/routes/suggestions_routes.py *)

Module SuggestionsRoutes.

Import GeminiApi.
Local Open Scope py_scope.

(** An [AttributeError] raised inside a route's [try] (a [.get] on a
    body that is not an object, a [.strip] on a field that is not a
    text).  The handlers only ask whether an exception is a
    [BadRequest]; the stand-in is not one. *)
Definition attribute_error (what : string) : Exn := ValueError what.

(** [data.get(key, '').strip()] *)
Definition get_field (data : Json) (key : string) : M string :=
  match data with
  | JDict d =>
      match assoc_get key d with
      | None => ret (strip "")
      | Some (JStr s) => ret (strip s)
      | Some _ => raise (attribute_error "object has no attribute 'strip'")
      end
  | _ => raise (attribute_error "object has no attribute 'get'")
  end.

(** [value if value else fallback] *)
Definition or_else (value fallback : string) : string :=
  if truthy value then value else fallback.

(** [s.split(':')[-1]] *)
Definition after_last_colon (s : string) : string :=
  List.last (split colon s) "".

Definition period : ascii := ascii_of_nat 46.

(** The two [except] clauses that close each route: a [BadRequest] is
    raised again, anything else becomes the route's generic failure. *)
Definition suggestion_except (generic : string) (e : Exn) : Exn :=
  match e with
  | BadRequest description => BadRequest description
  | _ => InternalServerError generic
  end.

Definition doctor_prompt (prediction symptoms health_records : string) : string :=
  join nl [
    "";
    "        Based on the following patient information, recommend the single most appropriate medical specialty to consult.";
    "        Return *only* the name of the medical specialty (e.g., Cardiologist, Neurologist, Endocrinologist, General Practitioner).";
    "        Do not include any explanations, introductory phrases, or extra text.";
    "";
    "        Patient Information:";
    "        - Disease Prediction Result: " +:+ or_else prediction "Not provided";
    "        - Reported Symptoms: " +:+ or_else symptoms "Not provided";
    "        - Relevant Health Records: " +:+ or_else health_records "Not provided";
    "";
    "        Recommended Specialty:";
    "        " ].

(** Lines 14-84, entered with what [request.get_json()] returned. *)
Definition generate_doctor_suggestion_route (remote : Remote) (data : Json) : M Dict :=
  try_except
    (if negb (json_truthy data) then
       raise (BadRequest "No JSON data received in the request body.")
     else
       prediction <- get_field data "prediction" ;;
       symptoms <- get_field data "symptoms" ;;
       health_records <- get_field data "health_records" ;;
       if negb (truthy prediction) && negb (truthy symptoms) && negb (truthy health_records)
       then raise (BadRequest "Please provide prediction result, symptoms, or health records.")
       else
         suggestion_text <-
           call_gemini_api remote (doctor_prompt prediction symptoms health_records) 2 2 ;;
         match suggestion_text with
         | Some t =>
             if truthy t then
               let suggestion := strip (after_last_colon t) in
               let suggestion := strip (remove_char period suggestion) in
               ret [("suggestion", suggestion)]
             else raise (InternalServerError "Could not generate doctor suggestion at this time.")
         | None => raise (InternalServerError "Could not generate doctor suggestion at this time.")
         end)
    (fun e => raise (suggestion_except
                       "An unexpected error occurred while generating the doctor suggestion." e)).

Definition diet_prompt (preferences goals : string) : string :=
  join nl [
    "";
    "        Suggest a brief, simple diet plan based on the following user information.";
    "        Provide the plan in plain English text only. Do not use bullet points, bolding, italics, or any special formatting symbols.";
    "        Keep the plan concise and easy to follow.";
    "";
    "        User Information:";
    "        - Dietary Preferences/Restrictions: " +:+ or_else preferences "None specified";
    "        - Health Goals: " +:+ or_else goals "None specified";
    "";
    "        Suggested Diet Plan:";
    "        " ].

(** Lines 88-145, entered with what [request.get_json()] returned. *)
Definition generate_diet_plan_route (remote : Remote) (data : Json) : M Dict :=
  try_except
    (if negb (json_truthy data) then
       raise (BadRequest "No JSON data received in the request body.")
     else
       preferences <- get_field data "preferences" ;;
       goals <- get_field data "goals" ;;
       if negb (truthy preferences) && negb (truthy goals)
       then raise (BadRequest "Please provide dietary preferences or health goals.")
       else
         diet_plan_text <- call_gemini_api remote (diet_prompt preferences goals) 2 2 ;;
         match diet_plan_text with
         | Some t =>
             if truthy t then
               let cleaned_plan := strip (after_last_colon t) in
               ret [("diet_plan", cleaned_plan)]
             else raise (InternalServerError "Could not generate diet plan suggestion at this time.")
         | None => raise (InternalServerError "Could not generate diet plan suggestion at this time.")
         end)
    (fun e => raise (suggestion_except
                       "An unexpected error occurred while generating the diet plan." e)).

End SuggestionsRoutes.

(** ** Further notions and environments *)

Module Traces.

Import Transcription GeminiApi AsrRoutes Spec.

(** Number of sleeps in a log. *)
Definition count_sleeps (log : list Event) : nat := length (sleeps log).

(** The failures the client retries with a doubled delay: a status of
    the 500 class, a timeout, a connection error. *)
Definition is_backoff_failure (o : Outcome) : Prop :=
  is_server_error o \/ o = TimeoutError \/ o = ClientError.

(** A body the layered checks turn down. *)
Definition is_rejected_body (o : Outcome) : Prop :=
  exists body, o = JsonResult body /\ forall t, parse_response body <> PText t.

(** [n] requests separated by sleeps of the same duration. *)
Fixpoint steady_trace (prompt : string) (n : nat) (delay : Z) : list Event :=
  match n with
  | O => []
  | S k =>
      Post prompt ::
      match k with
      | O => []
      | S _ => Sleep delay :: steady_trace prompt k delay
      end
  end.

(** The line, read as [suggestion_line] reads it, carries the key [k]. *)
Definition suggestion_line_speaks_for (k line : string) : bool :=
  match split_once colon (strip line) with
  | Some (key, _) =>
      String.eqb (lower k) (lower (remove_char colon (strip key)))
      || String.eqb (remove_char colon (strip key)) k
  | None => false
  end.

Definition suggestion_produced (k : string) (result : option string) : bool :=
  match result with
  | Some r => truthy r && existsb (suggestion_line_speaks_for k) (split newline (strip r))
  | None => false
  end.

(** The post-condition of suggestion generation for a given answer of
    the client. *)
Definition full_suggestions (result : option string) (suggestions : Dict) : Prop :=
  NoDup (dict_keys suggestions) /\
  (forall k, In k (dict_keys suggestions) <-> In k required_suggestion_keys) /\
  (forall k, In k required_suggestion_keys -> suggestion_produced k result = false ->
             assoc_get k suggestions = Some "Not specified").

(** The summary of a record that goes into the suggestion prompt. *)
Definition emr_summary (emr_data : Dict) : string :=
  join nl (map (fun kv => "- " +:+ fst kv +:+ ": " +:+ snd kv)
               (List.filter (fun kv => negb (is_not_mentioned (snd kv))) emr_data)).

(** Traffic of a computation: it appends events, among them at most
    [posts] requests and [naps] sleeps. *)
Definition traffic {A} (m : M A) (posts naps : nat) : Prop :=
  forall log, exists events,
    snd (m log) = log ++ events /\
    (count_posts events <= posts)%nat /\ (count_sleeps events <= naps)%nat.

(** [c in s] for a one-character text. *)
Definition has_char (c : ascii) (s : string) : bool := str_in (String c EmptyString) s.

(** The events the client itself logs. *)
Definition is_client_event (e : Event) : Prop :=
  match e with
  | Post _ => True
  | Sleep _ => True
  | Enter _ => False
  end.

End Traces.

Module MoreScenarios.

Import Transcription GeminiApi AsrRoutes Spec Scenarios.

(** A service that fails twice (503, then a timeout) and then answers. *)
Definition recovering_remote : Remote :=
  {| GEMINI_API_URL := Some "https://example.invalid/generate";
     gemini := fun log _ =>
       match count_posts log with
       | 0%nat => ClientResponseError 503 RA_absent
       | 1%nat => TimeoutError
       | _ => JsonResult (ok_json "  Cardiology.  ")
       end |}.




(** A body without any candidate. *)
Definition empty_body_remote : Remote := always (JsonResult (JDict [])).

Definition forbidden_remote : Remote := always (ClientResponseError 403 RA_absent).

Definition unconfigured_remote : Remote :=
  {| GEMINI_API_URL := None; gemini := fun _ _ => JsonResult (ok_json "unused") |}.

Definition bad_header_remote : Remote :=
  always (ClientResponseError 429 (RA_invalid "invalid literal for int() with base 10")).

Definition silent_models : gmap string (option Pipeline) :=
  {[ "whisper_en" := Some (fun _ => PipeReturns (PVStr "   "));
     "whisper_ml" := Some (fun _ => PipeReturns PVNone) ]}.

Definition repeated_answer : string :=
  join nl [ "Allergies: penicillin: rash";
            "ALLERGIES: none";
            "Current Medications: aspirin" ].

Definition suggestions_answer : string :=
  join nl [ "Differential Diagnosis: viral infection";
            "Here is some advice";
            "follow-up recommendations: review in a week" ].

Definition informative_record : Dict :=
  [ ("Presenting Complaint", "dry cough"); ("Allergies", "Not mentioned") ].

Definition bad_header_env : Env := make_env english_models bad_header_remote.

Definition unconfigured_ml_env : Env := make_env malayalam_models unconfigured_remote.

Definition unconfigured_en_env : Env := make_env english_models unconfigured_remote.

Definition silent_env : Env := make_env silent_models (always TimeoutError).

Definition cough_answer : string :=
  join nl [ "Presenting Complaint: dry cough"; "Allergies: none" ].

(** The service answers every request with the same two-line record. *)
Definition cough_env : Env :=
  make_env english_models (always (JsonResult (ok_json cough_answer))).

Definition labelled_remote : Remote :=
  always (JsonResult (ok_json "ENGLISH Translation:   The patient has a fever.")).

Definition diet_request : Json :=
  JDict [ ("preferences", JStr " vegetarian "); ("goals", JStr "") ].

Definition diet_remote : Remote :=
  always (JsonResult (ok_json "Breakfast: oats. Lunch: rice and lentils")).

Definition doctor_request : Json :=
  JDict [ ("prediction", JStr "diabetes: positive"); ("symptoms", JStr "  thirst ") ].

Definition blank_request : Json :=
  JDict [ ("prediction", JStr "   "); ("symptoms", JStr "") ].

End MoreScenarios.

(** * Properties *)

Import Transcription GeminiApi AsrRoutes Spec Scenarios.
Import SuggestionsRoutes Traces MoreScenarios.
Local Open Scope py_scope.

(** ** Strings *)

Section StringFacts.

Lemma startswith_rstrip (sub s : string) :
  rstrip sub = sub -> startswith sub (rstrip s) = startswith sub s.
Proof.
  revert sub. induction s as [|c s IH]; intros sub Hsub; [reflexivity|].
  destruct sub as [|a p]; [reflexivity|].
  assert (Hp : rstrip p = p).
  { simpl in Hsub. destruct (rstrip p) eqn:E.
    - destruct (is_space a); [discriminate|]. now inversion Hsub.
    - now inversion Hsub. }
  specialize (IH p Hp). simpl.
  destruct (rstrip s) as [|r0 r] eqn:Er.
  - destruct p as [|b p'].
    + simpl in Hsub. destruct (is_space a) eqn:Ea; [discriminate|].
      destruct (is_space c) eqn:Ec; simpl.
      * destruct (Ascii.eqb_spec a c) as [->|]; [congruence|reflexivity].
      * destruct (Ascii.eqb a c); reflexivity.
    + rewrite <- IH.
      destruct (is_space c); simpl; destruct (Ascii.eqb a c); reflexivity.
  - simpl. rewrite IH. reflexivity.
Qed.

Lemma str_in_rstrip (sub s : string) :
  rstrip sub = sub -> sub <> "" -> str_in sub (rstrip s) = str_in sub s.
Proof.
  intros Hsub Hne. induction s as [|c s IH]; [reflexivity|].
  pose proof (startswith_rstrip sub (String c s) Hsub) as Hsw.
  change (str_in sub (String c s)) with (startswith sub (String c s) || str_in sub s).
  rewrite <- IH, <- Hsw. simpl.
  destruct (rstrip s) as [|r0 r] eqn:Er.
  - destruct (is_space c); simpl; [|reflexivity].
    destruct sub; [congruence|reflexivity].
  - reflexivity.
Qed.

Lemma str_in_lstrip (a : ascii) (p s : string) :
  is_space a = false -> str_in (String a p) (lstrip s) = str_in (String a p) s.
Proof.
  intros Ha. induction s as [|c s IH]; [reflexivity|].
  simpl lstrip. destruct (is_space c) eqn:Ec; [|reflexivity].
  rewrite IH. simpl.
  destruct (Ascii.eqb_spec a c) as [->|]; [congruence|reflexivity].
Qed.

(** Trimming neither hides nor creates an occurrence of a text that
    itself starts and ends with a printing character. *)
Lemma str_in_strip (a : ascii) (p s : string) :
  is_space a = false -> rstrip (String a p) = String a p ->
  str_in (String a p) (strip s) = str_in (String a p) s.
Proof.
  intros Ha Hr. unfold strip.
  rewrite str_in_rstrip by (auto; discriminate).
  now apply str_in_lstrip.
Qed.

Lemma error_marker_strip (s : string) : str_in "Error:" (strip s) = str_in "Error:" s.
Proof. now apply str_in_strip. Qed.

Lemma startswith_str_in (sub s : string) : startswith sub s = true -> str_in sub s = true.
Proof. intros H. destruct s; simpl in *; rewrite H; reflexivity. Qed.

Lemma truthy_nonempty (s : string) : truthy s = true <-> s <> "".
Proof. destruct s; simpl; split; congruence. Qed.

End StringFacts.

(** ** Language detection *)

Lemma decision_logic_range (g_ml g_en : option string) :
  decision_logic g_ml g_en = "en" \/ decision_logic g_ml g_en = "ml".
Proof.
  unfold decision_logic.
  repeat match goal with
         | |- context [if ?b then _ else _] => destruct b
         end; auto.
Qed.

(** C3. The decision table sends the pair (mlGuess, enGuess) = (ml, null)
    to Malayalam, and (null, en), (null, null) and the conflicting
    (en, ml) to English. *)
Theorem decision_table_rows :
  decision_logic (Some "ml") None = "ml" /\
  decision_logic None (Some "en") = "en" /\
  decision_logic None None = "en" /\
  decision_logic (Some "en") (Some "ml") = "en".
Proof. repeat split; reflexivity. Qed.

(** C4. Language detection is total and its result is one of "en" and
    "ml": whatever the registry holds, whatever the two models and the
    classifier do (return any shape or raise), for every buffer (shorter
    than the detection window or not) and every sample rate. *)
Theorem detect_language_total
    (models : gmap string (option Pipeline))
    (classifier : string -> LangDetectOutcome)
    (cfg : DetectConfig) (audio_data : list Sample) (sr : Z) :
  detect_language_from_audio models classifier cfg audio_data sr = "en" \/
  detect_language_from_audio models classifier cfg audio_data sr = "ml".
Proof.
  unfold detect_language_from_audio.
  destruct (length audio_data =? 0)%nat; [now left|].
  destruct (sr <=? 0)%Z; [now left|].
  match goal with |- context [(length ?c =? 0)%nat] => destruct (length c =? 0)%nat end;
    [now left|].
  destruct (registry_get models "whisper_ml"); [|now left].
  destruct (registry_get models "whisper_en"); [|now left].
  apply decision_logic_range.
Qed.

(** ** The inference runner *)

Lemma run_pipeline_async_missing (models : gmap string (option Pipeline)) key input :
  registry_get models key = None ->
  startswith "Error:" (text (run_pipeline_async models key input)) = true.
Proof. intros H. unfold run_pipeline_async. rewrite H. reflexivity. Qed.

Lemma run_pipeline_async_raises (models : gmap string (option Pipeline)) key p input :
  registry_get models key = Some p -> p input = PipeRaises ->
  text (run_pipeline_async models key input)
    = "Error during transcription processing with '" +:+ key +:+ "'."
  /\ startswith "Error:" (text (run_pipeline_async models key input)) = false.
Proof.
  intros H1 H2. unfold run_pipeline_async. rewrite H1, H2. split; reflexivity.
Qed.

(** C2. When the English model is registered and raises, the runner's
    text is "Error during transcription processing with 'whisper_en'.":
    it does not begin with "Error:" and does not contain it either, so
    no check for the marker tells this failure from a transcription, and
    the route answers "success" with that text as the transcription. *)
Theorem run_pipeline_async_raise_unmarked :
  let r := run_pipeline_async raising_models "whisper_en"
             {| raw := sample_audio; sampling_rate := 16000 |} in
  text r = "Error during transcription processing with 'whisper_en'." /\
  startswith "Error:" (text r) = false /\
  str_in "Error:" (text r) = false /\
  exists resp log',
    transcribe_audio_route raising_env (Some "en") sample_audio 16000 []
      = (Returned resp, log') /\
    status resp = "success" /\
    raw_transcription resp = text r.
Proof.
  repeat split; try reflexivity.
  eexists. eexists. split; [vm_compute; reflexivity|]. split; reflexivity.
Qed.

(** ** The orchestrator *)

Ltac run_m := unfold bind, try_except, ret, raise, emit in *.

Lemma emr_and_suggestions_returns (env : Env) (final : string) (log : list Event) :
  exists r log', emr_and_suggestions env final log = (Returned r, log').
Proof.
  unfold emr_and_suggestions.
  destruct (truthy final && negb (str_in "Error:" final)); [|run_m; eauto].
  run_m.
  destruct (extract_emr (remote env) final log) as [[emr_data|e] log1]; [|eauto].
  destruct (negb (length emr_data =? 0)%nat); [|eauto].
  destruct (is_meaningful_emr emr_data); [|eauto].
  destruct (generate_suggestions (remote env) emr_data log1) as [[sg|e] log2]; eauto.
Qed.

Lemma transcribe_fatal (env : Env) (lang : string) (input : AudioInput) (log : list Event) :
  str_in "Error:" (stage_text env lang input) = true ->
  transcribe_and_translate env lang input log
    = (Raised (InternalServerError ("Transcription failed: " +:+ stage_text env lang input)),
       log).
Proof.
  unfold stage_text, transcribe_and_translate, transcription_model_key.
  destruct (String.eqb lang "ml"); intros ->; reflexivity.
Qed.

Lemma transcribe_not_fatal (env : Env) (lang : string) (input : AudioInput) (log : list Event) :
  str_in "Error:" (stage_text env lang input) = false ->
  exists lang' final log',
    transcribe_and_translate env lang input log
      = (Returned (lang', stage_text env lang input, final), log').
Proof.
  unfold stage_text, transcribe_and_translate, transcription_model_key.
  destruct (String.eqb lang "ml"); intros ->; [|run_m; eauto].
  match goal with |- context [negb (truthy ?t)] => destruct (negb (truthy t)) end;
    [run_m; eauto|].
  run_m.
  match goal with |- context [translate_with_gemini ?r ?t ?l] =>
    destruct (translate_with_gemini r t l) as [[tr|e] log1] end; [|eauto].
  match goal with |- context [if ?b then _ else _] => destruct b end; eauto.
Qed.

Lemma length_eqb_nonempty {A} (l : list A) : l <> [] -> (length l =? 0)%nat = false.
Proof. destruct l; [congruence|reflexivity]. Qed.

(** The route on accepted input: it fails exactly when the text of the
    Transcribed stage contains the marker, and then before anything is
    sent to the remote service. *)
Lemma route_outcome (env : Env) specified audio_data sr log eff method :
  validate_language specified = Returned (eff, method) ->
  audio_data <> [] ->
  let input := {| raw := audio_data; sampling_rate := sr |} in
  let lang := fst (determine_language env eff method audio_data sr) in
  if str_in "Error:" (stage_text env lang input) then
    transcribe_audio_route env specified audio_data sr log
      = (Raised (InternalServerError ("Transcription failed: " +:+ stage_text env lang input)),
         log)
  else
    exists resp log',
      transcribe_audio_route env specified audio_data sr log = (Returned resp, log').
Proof.
  intros Hval Hne input lang.
  unfold transcribe_audio_route, process_audio. rewrite Hval.
  rewrite (length_eqb_nonempty _ Hne).
  subst lang. destruct (determine_language env eff method audio_data sr) as [l m].
  simpl fst. fold input.
  destruct (str_in "Error:" (stage_text env l input)) eqn:Hm.
  - unfold try_except, bind. rewrite (transcribe_fatal _ _ _ _ Hm). reflexivity.
  - destruct (transcribe_not_fatal env l input log Hm) as (l' & fin & log1 & Htt).
    destruct (emr_and_suggestions_returns env fin log1) as ([e sg] & log2 & Hes).
    unfold try_except, bind. rewrite Htt, Hes. run_m. eauto.
Qed.

(** C5. On an accepted request, if the text returned by the model of the
    Transcribed stage carries the marker "Error:", the route raises the
    processing failure and the event log is left as it was: no
    translation, no record extraction and no suggestion generation took
    place.  If the text carries no marker the route returns a response,
    whatever the later stages do: no other stage is fatal. *)
Theorem transcription_failure_is_the_only_fatal_stage
    (env : Env) specified audio_data sr log eff method :
  validate_language specified = Returned (eff, method) ->
  audio_data <> [] ->
  let input := {| raw := audio_data; sampling_rate := sr |} in
  let lang := fst (determine_language env eff method audio_data sr) in
  let result := run_pipeline_async (asr_models env) (transcription_model_key lang) input in
  (str_in "Error:" (text result) = true ->
   transcribe_audio_route env specified audio_data sr log
     = (Raised (InternalServerError ("Transcription failed: " +:+ strip (text result))), log))
  /\
  (str_in "Error:" (text result) = false ->
   exists resp log',
     transcribe_audio_route env specified audio_data sr log = (Returned resp, log')).
Proof.
  intros Hval Hne input lang result.
  pose proof (route_outcome env specified audio_data sr log eff method Hval Hne) as H.
  cbv zeta in H. fold input lang in H. unfold stage_text in H. fold result in H.
  rewrite error_marker_strip in H.
  split; intros Hm; rewrite Hm in H; exact H.
Qed.

Lemma transcription_failure_witness :
  transcribe_audio_route unloaded_env (Some "en") sample_audio 16000 []
    = (Raised (InternalServerError
                 "Transcription failed: Error: Pipeline 'whisper_en' not available."), []).
Proof.
  refine (proj1 (transcription_failure_is_the_only_fatal_stage
                   unloaded_env (Some "en") sample_audio 16000 [] (Some "en") "specified"
                   _ _) _).
  - vm_compute. reflexivity.
  - discriminate.
  - vm_compute. reflexivity.
Defined.

(** C9. The fatal test of the orchestrator is containment: on an accepted
    request, when the model of the Transcribed stage is registered and
    returns normally, and the text obtained from what it returned
    contains "Error:" at any position, the route raises the processing
    failure. *)
Theorem marker_inside_successful_transcription_is_fatal
    (env : Env) specified audio_data sr log eff method pipeline value :
  validate_language specified = Returned (eff, method) ->
  audio_data <> [] ->
  let input := {| raw := audio_data; sampling_rate := sr |} in
  let lang := fst (determine_language env eff method audio_data sr) in
  registry_get (asr_models env) (transcription_model_key lang) = Some pipeline ->
  pipeline input = PipeReturns value ->
  str_in "Error:" (standardize_output value) = true ->
  transcribe_audio_route env specified audio_data sr log
    = (Raised (InternalServerError
                 ("Transcription failed: " +:+ strip (standardize_output value))),
       log).
Proof.
  intros Hval Hne input lang Hreg Hrun Hm.
  pose proof (route_outcome env specified audio_data sr log eff method Hval Hne) as H.
  cbv zeta in H. fold input lang in H.
  unfold stage_text, run_pipeline_async in H. rewrite Hreg, Hrun in H.
  simpl text in H. rewrite error_marker_strip, Hm in H. exact H.
Qed.

Lemma marker_inside_successful_transcription_witness :
  startswith "Error:" (stage_text dictation_env "en"
                         {| raw := sample_audio; sampling_rate := 16000 |}) = false /\
  transcribe_audio_route dictation_env None sample_audio 16000 []
    = (Raised (InternalServerError
                 "Transcription failed: The monitor showed Error: E4 twice."), []).
Proof.
  split; [vm_compute; reflexivity|].
  refine (marker_inside_successful_transcription_is_fatal
            dictation_env None sample_audio 16000 [] None "automatic"
            (fun _ => PipeReturns (PVTextDict " The monitor showed Error: E4 twice. "))
            (PVTextDict " The monitor showed Error: E4 twice. ") _ _ _ _ _).
  - vm_compute. reflexivity.
  - discriminate.
  - vm_compute. reflexivity.
  - reflexivity.
  - vm_compute. reflexivity.
Defined.

(** C10. On an accepted request resolved to Malayalam whose transcription
    is non-empty and free of the marker, if the translation returns a
    text that contains "unavailable" (ignoring case) at any position, the
    route answers with an empty processed text and with the two
    informational records, and the event log is the one the translation
    left: record extraction and suggestion generation did not run. *)
Theorem unavailable_translation_is_discarded
    (env : Env) specified audio_data sr log eff method translated log' :
  validate_language specified = Returned (eff, method) ->
  audio_data <> [] ->
  let input := {| raw := audio_data; sampling_rate := sr |} in
  let resolved := determine_language env eff method audio_data sr in
  let raw := strip (text (run_pipeline_async (asr_models env) "whisper_ml" input)) in
  fst resolved = "ml" ->
  str_in "Error:" raw = false ->
  truthy raw = true ->
  translate_with_gemini (remote env) raw log = (Returned translated, log') ->
  str_in "unavailable" (lower translated) = true ->
  transcribe_audio_route env specified audio_data sr log
    = (Returned {| status := "success";
                   detection_method := snd resolved;
                   effective_language := "ml";
                   raw_transcription := raw;
                   processed_text := "";
                   emr := [("info", "EMR not generated due to issues in prior steps.")];
                   suggestions :=
                     [("info", "Suggestions not generated due to issues in prior steps.")] |},
       log').
Proof.
  intros Hval Hne input resolved raw Hml Herr Hraw Htr Hun.
  unfold transcribe_audio_route, process_audio. rewrite Hval.
  rewrite (length_eqb_nonempty _ Hne).
  subst resolved. destruct (determine_language env eff method audio_data sr) as [l m].
  simpl in Hml |- *. subst l.
  unfold transcribe_and_translate. fold input. simpl String.eqb. cbv iota.
  fold raw. rewrite Herr, Hraw. simpl negb. cbv iota.
  unfold try_except, bind. rewrite Htr, Hun.
  rewrite orb_true_r. reflexivity.
Qed.

Lemma unavailable_translation_witness :
  exists log',
    transcribe_audio_route unavailable_env (Some "ml") sample_audio 16000 []
      = (Returned {| status := "success";
                     detection_method := "specified";
                     effective_language := "ml";
                     raw_transcription := "rogikku pani undu";
                     processed_text := "";
                     emr := [("info", "EMR not generated due to issues in prior steps.")];
                     suggestions :=
                       [("info", "Suggestions not generated due to issues in prior steps.")] |},
         log').
Proof.
  eexists.
  refine (unavailable_translation_is_discarded
            unavailable_env (Some "ml") sample_audio 16000 [] (Some "ml") "specified"
            "The doctor was unavailable on Monday; the patient has had a fever since."
            _ _ _ _ _ _ _ _).
  - vm_compute. reflexivity.
  - discriminate.
  - reflexivity.
  - vm_compute. reflexivity.
  - vm_compute. reflexivity.
  - vm_compute. reflexivity.
  - vm_compute. reflexivity.
Defined.

Lemma placeholders_not_meaningful (emr_data : Dict) :
  forallb is_placeholder (dict_values emr_data) = true -> is_meaningful_emr emr_data = false.
Proof.
  unfold is_meaningful_emr. induction (dict_values emr_data) as [|v vs IH]; [reflexivity|].
  cbn [forallb existsb]. intros H. apply andb_prop in H as [Hv Hvs].
  unfold is_placeholder in Hv. rewrite Hv, andb_false_r. cbn [negb orb]. auto.
Qed.

(** C8. On an accepted request whose canonical text reaches record
    extraction, if every value of the extracted record is a placeholder
    ("not mentioned", "none", "n/a" or the empty text, ignoring case),
    the gate says "not meaningful", the response carries the record and a
    suggestions object made of the single informational entry, and the
    event log is the one extraction left: the suggestion call was not
    entered. *)
Theorem sentinel_record_skips_suggestions
    (env : Env) specified audio_data sr log eff method lang raw final log1 emr_data log2 :
  validate_language specified = Returned (eff, method) ->
  audio_data <> [] ->
  let input := {| raw := audio_data; sampling_rate := sr |} in
  let resolved := determine_language env eff method audio_data sr in
  transcribe_and_translate env (fst resolved) input log = (Returned (lang, raw, final), log1) ->
  truthy final = true ->
  str_in "Error:" final = false ->
  extract_emr (remote env) final log1 = (Returned emr_data, log2) ->
  forallb is_placeholder (dict_values emr_data) = true ->
  is_meaningful_emr emr_data = false /\
  transcribe_audio_route env specified audio_data sr log
    = (Returned {| status := "success";
                   detection_method := snd resolved;
                   effective_language := lang;
                   raw_transcription := raw;
                   processed_text := final;
                   emr := emr_data;
                   suggestions :=
                     [("info",
                       if (length emr_data =? 0)%nat
                       then "Suggestions not generated because EMR extraction was empty."
                       else "Suggestions not generated due to non-informative EMR data.")] |},
       log2).
Proof.
  intros Hval Hne input resolved Htt Hfin Herr Hex Hall.
  pose proof (placeholders_not_meaningful _ Hall) as Hgate.
  split; [exact Hgate|].
  unfold transcribe_audio_route, process_audio. rewrite Hval.
  rewrite (length_eqb_nonempty _ Hne).
  subst resolved. destruct (determine_language env eff method audio_data sr) as [l m].
  simpl in Htt |- *. fold input.
  unfold try_except at 1. unfold bind at 1. rewrite Htt.
  unfold emr_and_suggestions. rewrite Hfin, Herr. simpl andb. cbv iota.
  unfold try_except, bind. rewrite Hex, Hgate.
  destruct (length emr_data =? 0)%nat; reflexivity.
Qed.

Lemma sentinel_record_witness :
  exists log2,
    transcribe_audio_route sentinel_env (Some "en") sample_audio 16000 []
      = (Returned {| status := "success";
                     detection_method := "specified";
                     effective_language := "en";
                     raw_transcription := "good morning doctor";
                     processed_text := "good morning doctor";
                     emr := [ ("Presenting Complaint", "Not mentioned");
                              ("History of Presenting Illness", "NONE");
                              ("Past Medical History", "n/a");
                              ("Current Medications", "not mentioned");
                              ("Allergies", "") ];
                     suggestions :=
                       [("info",
                         "Suggestions not generated due to non-informative EMR data.")] |},
         log2).
Proof.
  eexists.
  refine (proj2 (sentinel_record_skips_suggestions
                   sentinel_env (Some "en") sample_audio 16000 [] (Some "en") "specified"
                   "en" "good morning doctor" "good morning doctor" []
                   [ ("Presenting Complaint", "Not mentioned");
                     ("History of Presenting Illness", "NONE");
                     ("Past Medical History", "n/a");
                     ("Current Medications", "not mentioned");
                     ("Allergies", "") ] _
                   _ _ _ _ _ _ _)).
  - vm_compute. reflexivity.
  - discriminate.
  - vm_compute. reflexivity.
  - reflexivity.
  - reflexivity.
  - vm_compute. reflexivity.
  - vm_compute. reflexivity.
Defined.

(** ** The remote client *)

Lemma count_posts_backoff_trace (prompt : string) (n : nat) (delay : Z) :
  count_posts (backoff_trace prompt n delay) = n.
Proof.
  revert delay. induction n as [|k IH]; intros delay; [reflexivity|].
  destruct k as [|k']; [reflexivity|].
  specialize (IH (delay * 2)%Z). unfold count_posts in *.
  cbn [backoff_trace List.filter is_post length] in *. now rewrite IH.
Qed.

Lemma sleeps_backoff_trace (prompt : string) (n : nat) (delay : Z) :
  sleeps (backoff_trace prompt (S n) delay)
    = map (fun i => (delay * 2 ^ i)%Z) (map Z.of_nat (seq 0 n)).
Proof.
  revert delay. induction n as [|k IH]; intros delay; [reflexivity|].
  change (sleeps (backoff_trace prompt (S (S k)) delay))
    with (delay :: sleeps (backoff_trace prompt (S k) (delay * 2))).
  rewrite IH. cbn [seq map]. f_equal; [simpl; lia|].
  rewrite <- seq_shift, !map_map. apply map_ext. intros i.
  rewrite Nat2Z.inj_succ, Z.pow_succ_r by lia. lia.
Qed.

Section AttemptLoop.

Variable gemini : Service.
Variable prompt : string.
Variable retries : Z.

Lemma attempt_loop_server_errors :
  (forall l p, is_server_error (gemini l p)) ->
  forall (n a : nat) (delay : Z) (log : list Event),
    (Z.of_nat a + Z.of_nat n = retries + 1)%Z ->
    attempt_loop gemini prompt retries (map Z.of_nat (seq a n)) delay log
      = (Returned None, log ++ backoff_trace prompt n delay).
Proof.
  intros Hsrv. induction n as [|k IH]; intros a delay log Hlen.
  - simpl. unfold ret. now rewrite app_nil_r.
  - cbn [seq map attempt_loop]. unfold bind at 1. unfold post.
    destruct (Hsrv log prompt) as (status & header & -> & Hrange).
    assert (Hne : (status =? 429)%Z = false) by (apply Z.eqb_neq; lia).
    assert (Hlo : (500 <=? status)%Z = true) by (apply Z.leb_le; lia).
    assert (Hhi : (status <? 600)%Z = true) by (apply Z.ltb_lt; lia).
    rewrite Hne, Hlo, Hhi. cbn [andb].
    destruct k as [|k'].
    + assert (Hlast : (Z.of_nat a <? retries)%Z = false) by (apply Z.ltb_ge; lia).
      rewrite Hlast. reflexivity.
    + assert (Hmore : (Z.of_nat a <? retries)%Z = true) by (apply Z.ltb_lt; lia).
      rewrite Hmore. unfold bind, sleep, emit.
      rewrite (IH (S a) (delay * 2)%Z) by lia.
      cbn [backoff_trace]. now rewrite <- !app_assoc.
Qed.

(** The loop only appends to the log, and an iteration starts by
    sending one request. *)
Lemma attempt_loop_extends (attempts : list Z) :
  forall (delay : Z) (log : list Event),
    exists tail,
      snd (attempt_loop gemini prompt retries attempts delay log)
        = log ++ match attempts with
                 | [] => tail
                 | _ :: _ => Post prompt :: tail
                 end.
Proof.
  induction attempts as [|attempt rest IH]; intros delay log.
  - exists []. simpl. now rewrite app_nil_r.
  - cbn [attempt_loop]. unfold bind at 1. unfold post.
    assert (Hrec : forall d l, exists tail,
               snd (attempt_loop gemini prompt retries rest d l) = l ++ tail).
    { intros d l. destruct (IH d l) as [tail Ht]. rewrite Ht.
      destruct rest; eauto. }
    assert (Hstop : forall r : option string,
               exists tail, snd (ret r (log ++ [Post prompt])) = log ++ Post prompt :: tail)
      by (intros r; now exists []).
    assert (Hgo : forall d1 d2,
               exists tail,
                 snd ((sleep d1 ;;; attempt_loop gemini prompt retries rest d2)
                        (log ++ [Post prompt])) = log ++ Post prompt :: tail).
    { intros d1 d2. unfold bind, sleep, emit.
      destruct (Hrec d2 ((log ++ [Post prompt]) ++ [Sleep d1])) as [tail Ht].
      exists ([Sleep d1] ++ tail). rewrite Ht, <- !app_assoc. reflexivity. }
    destruct (gemini log prompt) as [status header| | | |result].
    + destruct ((status =? 429)%Z && (attempt <? retries)%Z).
      * destruct header as [|R|msg]; [apply Hgo|apply Hgo|].
        now exists [].
      * destruct ((500 <=? status)%Z && (status <? 600)%Z && (attempt <? retries)%Z);
          [apply Hgo|apply Hstop].
    + destruct (attempt <? retries)%Z; [apply Hgo|apply Hstop].
    + destruct (attempt <? retries)%Z; [apply Hgo|apply Hstop].
    + destruct (retries <=? attempt)%Z; [apply Hstop|apply Hgo].
    + destruct (parse_response result) as [t| |].
      * apply Hstop.
      * destruct (attempt <? retries)%Z; [apply Hgo|].
        unfold bind, ret.
        destruct (Hrec delay (log ++ [Post prompt])) as [tail Ht].
        exists tail. rewrite Ht, <- app_assoc. reflexivity.
      * destruct (retries <=? attempt)%Z; [apply Hstop|apply Hgo].
Qed.

Lemma rate_limited_step (attempt : Z) (rest : list Z) (delay : Z) (log : list Event)
    (header : RetryAfter) (slept : Z) :
  (attempt < retries)%Z ->
  gemini log prompt = ClientResponseError 429 header ->
  header = RA_int slept \/ (header = RA_absent /\ slept = (delay * 2)%Z) ->
  attempt_loop gemini prompt retries (attempt :: rest) delay log
    = attempt_loop gemini prompt retries rest slept (log ++ [Post prompt; Sleep slept]).
Proof.
  intros Hlt Hans Hhdr. cbn [attempt_loop]. unfold bind at 1. unfold post. rewrite Hans.
  apply Z.ltb_lt in Hlt. rewrite Hlt. cbn [Z.eqb Pos.eqb andb].
  destruct Hhdr as [->|[-> ->]]; unfold bind, sleep, emit;
    now rewrite <- app_assoc.
Qed.

End AttemptLoop.

(** C6. With a configured service that answers every request with a
    status of the 500 class, a call with [retries >= -1] returns the
    failure value [None] without raising, after exactly [retries + 1]
    requests; between consecutive requests it sleeps, first for [delay]
    and each time twice as long as before. *)
Theorem server_errors_exhaust_retries
    (remote : Remote) (prompt : string) (retries delay : Z) (log : list Event)
    (api_url : string) :
  GEMINI_API_URL remote = Some api_url ->
  truthy api_url = true ->
  (-1 <= retries)%Z ->
  (forall l p, is_server_error (gemini remote l p)) ->
  exists events,
    call_gemini_api remote prompt retries delay log = (Returned None, log ++ events) /\
    events = backoff_trace prompt (Z.to_nat (retries + 1)) delay /\
    Z.of_nat (count_posts events) = (retries + 1)%Z /\
    sleeps events = map (fun i => (delay * 2 ^ i)%Z) (py_range retries).
Proof.
  intros Hurl Htruthy Hretries Hsrv.
  exists (backoff_trace prompt (Z.to_nat (retries + 1)) delay).
  split; [|split; [reflexivity|split]].
  - unfold call_gemini_api, py_range. rewrite Hurl, Htruthy. cbn [negb].
    apply attempt_loop_server_errors; [exact Hsrv|lia].
  - rewrite count_posts_backoff_trace. lia.
  - unfold py_range.
    destruct (Z.to_nat (retries + 1)) as [|n] eqn:Hn.
    + replace (Z.to_nat retries) with 0%nat by lia. reflexivity.
    + replace (Z.to_nat retries) with n by lia. apply sleeps_backoff_trace.
Qed.

Lemma server_errors_witness :
  call_gemini_api (always (ClientResponseError 503 RA_absent)) "prompt" 2 2 []
    = (Returned None,
       [Post "prompt"; Sleep 2; Post "prompt"; Sleep 4; Post "prompt"]).
Proof.
  assert (Hsrv : forall l p,
             is_server_error (gemini (always (ClientResponseError 503 RA_absent)) l p)).
  { intros l p. exists 503%Z, RA_absent. split; [reflexivity|lia]. }
  assert (Hretries : (-1 <= 2)%Z) by lia.
  destruct (server_errors_exhaust_retries
              (always (ClientResponseError 503 RA_absent)) "prompt" 2 2 []
              "https://example.invalid/generate" eq_refl eq_refl Hretries Hsrv)
    as (events & Hcall & Hevents & _).
  rewrite Hcall, Hevents. reflexivity.
Defined.

(** C7. When an attempt that leaves retry budget (a next attempt exists)
    is answered with status 429, the client sleeps before the next
    request: exactly [R] seconds when [Retry-After] carries the integer
    [R], and twice the running value of [delay] when the header is absent;
    the loop goes on with that duration as its new [delay]. *)
Theorem rate_limit_sleep
    (service : Service) (prompt : string) (retries attempt next : Z) (rest : list Z)
    (delay : Z) (log : list Event) (header : RetryAfter) :
  (attempt < retries)%Z ->
  service log prompt = ClientResponseError 429 header ->
  let run := attempt_loop service prompt retries (attempt :: next :: rest) delay log in
  (forall R, header = RA_int R ->
     run = attempt_loop service prompt retries (next :: rest) R
             (log ++ [Post prompt; Sleep R]) /\
     exists tail, snd run = log ++ Post prompt :: Sleep R :: Post prompt :: tail)
  /\
  (header = RA_absent ->
     run = attempt_loop service prompt retries (next :: rest) (delay * 2)
             (log ++ [Post prompt; Sleep (delay * 2)]) /\
     exists tail,
       snd run = log ++ Post prompt :: Sleep (delay * 2) :: Post prompt :: tail).
Proof.
  intros Hlt Hans run.
  assert (Hstep : forall slept,
             header = RA_int slept \/ (header = RA_absent /\ slept = (delay * 2)%Z) ->
             run = attempt_loop service prompt retries (next :: rest) slept
                     (log ++ [Post prompt; Sleep slept]) /\
             exists tail,
               snd run = log ++ Post prompt :: Sleep slept :: Post prompt :: tail).
  { intros slept Hhdr. subst run.
    rewrite (rate_limited_step service prompt retries attempt (next :: rest) delay log
               header slept Hlt Hans Hhdr).
    split; [reflexivity|].
    destruct (attempt_loop_extends service prompt retries (next :: rest) slept
                (log ++ [Post prompt; Sleep slept])) as [tail Ht].
    exists tail. rewrite Ht, <- app_assoc. reflexivity. }
  split.
  - intros R ->. apply Hstep. now left.
  - intros ->. apply Hstep. now right.
Qed.

Lemma rate_limit_sleep_witness :
  exists tail,
    snd (call_gemini_api throttling_remote "prompt" 2 2 [])
      = Post "prompt" :: Sleep 7 :: Post "prompt" :: tail.
Proof.
  assert (Hbudget : (0 < 2)%Z) by lia.
  exact (proj2 (proj1 (rate_limit_sleep (gemini throttling_remote) "prompt" 2 0 1 [2%Z] 2 []
                         (RA_int 7) Hbudget eq_refl) 7%Z eq_refl)).
Defined.

(** C7, as worded, fails: after a 503 has doubled the delay from 2 to 4,
    a 429 without [Retry-After] is followed by a sleep of 8, not of
    twice the configured 2. *)
Lemma absent_header_counterexample :
  call_gemini_api flaky_remote "prompt" 2 2 []
    = (Returned (Some "ok"),
       [Post "prompt"; Sleep 2; Post "prompt"; Sleep 8; Post "prompt"]) /\
  ~ absent_header_doubles_configured_delay flaky_remote "prompt" 2 2.
Proof.
  split; [reflexivity|].
  intros H.
  assert (Hbudget : (Z.of_nat (count_posts [Post "prompt"; Sleep 2]) < 2)%Z)
    by (vm_compute; reflexivity).
  destruct (H (Returned (Some "ok")) [Post "prompt"; Sleep 2] [Sleep 8; Post "prompt"]
              eq_refl eq_refl Hbudget) as [tail' Ht].
  discriminate Ht.
Qed.

(** ** The field extractor *)

Section Dicts.

Lemma dict_mem_In (k : string) (d : Dict) : dict_mem k d = true <-> In k (dict_keys d).
Proof.
  unfold dict_mem, dict_keys. induction d as [|[k0 v0] d IH]; simpl.
  - split; [discriminate|tauto].
  - destruct (String.eqb_spec k0 k) as [->|Hne].
    + split; auto.
    + rewrite IH. split; [auto|]. intros [H|H]; [congruence|exact H].
Qed.

Lemma dict_mem_not_In (k : string) (d : Dict) : dict_mem k d = false <-> ~ In k (dict_keys d).
Proof.
  rewrite <- dict_mem_In. destruct (dict_mem k d); split; congruence.
Qed.

Lemma dict_keys_set (k v : string) (d : Dict) :
  dict_keys (dict_set k v d) = if dict_mem k d then dict_keys d else dict_keys d ++ [k].
Proof.
  unfold dict_mem, dict_keys. induction d as [|[k0 v0] d IH]; simpl; [reflexivity|].
  destruct (String.eqb k0 k); simpl; [reflexivity|].
  rewrite IH. destruct (assoc_get k d); reflexivity.
Qed.

Lemma assoc_get_set (k v k' : string) (d : Dict) :
  assoc_get k' (dict_set k v d) = if String.eqb k k' then Some v else assoc_get k' d.
Proof.
  induction d as [|[k0 v0] d IH]; simpl.
  - reflexivity.
  - destruct (String.eqb_spec k0 k) as [->|Hne]; simpl.
    + destruct (String.eqb k k'); reflexivity.
    + rewrite IH. destruct (String.eqb_spec k0 k') as [->|Hne'].
      * destruct (String.eqb_spec k k'); [congruence|reflexivity].
      * reflexivity.
Qed.

Lemma assoc_get_None (k : string) (d : Dict) : dict_mem k d = false -> assoc_get k d = None.
Proof. unfold dict_mem. destruct (assoc_get k d); [discriminate|reflexivity]. Qed.

Lemma list_mem_In (k : string) (l : list string) : list_mem k l = true <-> In k l.
Proof.
  unfold list_mem. rewrite existsb_exists. split.
  - intros (x & Hx & Heq). apply String.eqb_eq in Heq. now subst.
  - intros H. exists k. split; [exact H|apply String.eqb_refl].
Qed.

Variable sentinel : string.

Lemma fill_missing_keeps (keys : list string) (d : Dict) (k v : string) :
  assoc_get k d = Some v -> assoc_get k (fill_missing sentinel keys d) = Some v.
Proof.
  revert d. induction keys as [|key keys IH]; intros d H; [exact H|].
  cbn [fill_missing fold_left]. apply IH.
  destruct (dict_mem key d) eqn:Hm; [exact H|].
  rewrite assoc_get_set. destruct (String.eqb_spec key k) as [->|]; [|exact H].
  unfold dict_mem in Hm. rewrite H in Hm. discriminate.
Qed.

Lemma fill_missing_sentinel (keys : list string) (d : Dict) (k : string) :
  In k keys -> dict_mem k d = false ->
  assoc_get k (fill_missing sentinel keys d) = Some sentinel.
Proof.
  revert d. induction keys as [|key keys IH]; intros d Hin Hm; [destruct Hin|].
  cbn [fill_missing fold_left].
  destruct (String.eqb_spec key k) as [->|Hne].
  - rewrite Hm. apply fill_missing_keeps. rewrite assoc_get_set, String.eqb_refl. reflexivity.
  - destruct Hin as [->|Hin]; [congruence|].
    apply IH; [exact Hin|].
    destruct (dict_mem key d); [exact Hm|].
    unfold dict_mem in *. rewrite assoc_get_set.
    destruct (String.eqb_spec key k); [congruence|exact Hm].
Qed.

Lemma fill_missing_keys (keys : list string) (d : Dict) :
  NoDup (dict_keys d) ->
  NoDup (dict_keys (fill_missing sentinel keys d)) /\
  (forall k, In k (dict_keys (fill_missing sentinel keys d)) <-> In k (dict_keys d) \/ In k keys).
Proof.
  revert d. induction keys as [|key keys IH]; intros d Hnd.
  - split; [exact Hnd|]. intros k. simpl. tauto.
  - cbn [fill_missing fold_left].
    destruct (dict_mem key d) eqn:Hm.
    + destruct (IH d Hnd) as [Hnd' Hk]. split; [exact Hnd'|].
      intros k. rewrite Hk. simpl. apply dict_mem_In in Hm.
      split; [tauto|]. intros [H|[<-|H]]; auto.
    + assert (Hnd1 : NoDup (dict_keys (dict_set key sentinel d))).
      { rewrite dict_keys_set, Hm. apply dict_mem_not_In in Hm.
        apply NoDup_app. split; [exact Hnd|]. split.
        - intros x Hx Hin. apply list_elem_of_In in Hx, Hin.
          destruct Hin as [<-|[]]. contradiction.
        - apply NoDup_singleton. }
      destruct (IH _ Hnd1) as [Hnd' Hk]. split; [exact Hnd'|].
      intros k. rewrite Hk, dict_keys_set, Hm, in_app_iff. simpl. tauto.
Qed.

End Dicts.

Lemma emr_line_cases (d : Dict) (line : string) :
  emr_line d line = d \/
  exists k v,
    emr_line d line = dict_set k v d /\ dict_mem k d = false /\
    In k required_keys /\ line_speaks_for k line = true.
Proof.
  unfold emr_line, line_speaks_for.
  destruct (split_once colon (strip line)) as [[key value]|]; [|now left].
  cbv zeta.
  assert (Hexact :
            (if list_mem (strip key) required_keys && negb (dict_mem (strip key) d)
             then dict_set (strip key) (strip value) d else d) = d \/
            exists k v,
              (if list_mem (strip key) required_keys && negb (dict_mem (strip key) d)
               then dict_set (strip key) (strip value) d else d) = dict_set k v d /\
              dict_mem k d = false /\ In k required_keys /\
              String.eqb (lower k) (lower (strip (remove_char colon (strip key))))
              || String.eqb (strip key) k = true).
  { destruct (list_mem (strip key) required_keys && negb (dict_mem (strip key) d)) eqn:H;
      [|now left].
    apply andb_prop in H as [Hin Hm]. right. exists (strip key), (strip value).
    split; [reflexivity|]. split; [now apply negb_true_iff|].
    split; [now apply list_mem_In|].
    rewrite String.eqb_refl. apply orb_true_r. }
  destruct (matched_key required_keys (strip (remove_char colon (strip key))))
    as [mk|] eqn:Hmk; [|exact Hexact].
  destruct (truthy mk && negb (dict_mem mk d)) eqn:H; [|exact Hexact].
  apply andb_prop in H as [_ Hm]. right. exists mk, (strip value).
  split; [reflexivity|]. split; [now apply negb_true_iff|].
  unfold matched_key in Hmk. apply find_some in Hmk as [Hin Heq].
  split; [exact Hin|]. now rewrite Heq.
Qed.

Lemma fold_emr_line (lines : list string) (d : Dict) :
  NoDup (dict_keys d) ->
  NoDup (dict_keys (fold_left emr_line lines d)) /\
  (forall k, In k (dict_keys (fold_left emr_line lines d)) ->
             In k (dict_keys d) \/
             (In k required_keys /\ existsb (line_speaks_for k) lines = true)).
Proof.
  revert d. induction lines as [|line lines IH]; intros d Hnd.
  - split; [exact Hnd|]. intros k H. now left.
  - cbn [fold_left existsb].
    destruct (emr_line_cases d line) as [->|(x & v & -> & Hm & Hreq & Hsp)].
    + destruct (IH d Hnd) as [Hnd' Hk]. split; [exact Hnd'|].
      intros k H. destruct (Hk k H) as [H1|[H1 H2]]; [now left|right].
      split; [exact H1|]. rewrite H2. apply orb_true_r.
    + assert (Hnd1 : NoDup (dict_keys (dict_set x v d))).
      { rewrite dict_keys_set, Hm. apply dict_mem_not_In in Hm.
        apply NoDup_app. split; [exact Hnd|]. split.
        - intros y Hy Hin. apply list_elem_of_In in Hy, Hin.
          destruct Hin as [<-|[]]. contradiction.
        - apply NoDup_singleton. }
      destruct (IH _ Hnd1) as [Hnd' Hk]. split; [exact Hnd'|].
      intros k H. destruct (Hk k H) as [H1|[H1 H2]].
      * rewrite dict_keys_set, Hm, in_app_iff in H1.
        destruct H1 as [H1|[<-|[]]]; [now left|right].
        split; [exact Hreq|]. now rewrite Hsp.
      * right. split; [exact H1|]. rewrite H2. apply orb_true_r.
Qed.

(** Whatever the client hands back, the dict built from it satisfies the
    post-condition. *)
Lemma emr_of_result_full_record (result : option string) :
  full_record result (emr_of_result result).
Proof.
  unfold emr_of_result.
  set (d0 := match result with
             | Some r => if truthy r then fold_left emr_line (split newline (strip r)) [] else []
             | None => []
             end).
  assert (H0 : NoDup (dict_keys d0) /\
               forall k, In k (dict_keys d0) ->
                         In k required_keys /\ produced k result = true).
  { subst d0. destruct result as [r|]; [|split; [constructor|intros k []]].
    unfold produced. destruct (truthy r); [|split; [constructor|intros k []]].
    destruct (fold_emr_line (split newline (strip r)) []) as [Hnd Hk]; [constructor|].
    split; [exact Hnd|]. intros k H. destruct (Hk k H) as [[]|[H1 H2]].
    split; [exact H1|]. now rewrite H2. }
  destruct H0 as [Hnd0 Hk0].
  destruct (fill_missing_keys "Not mentioned" required_keys d0 Hnd0) as [Hnd Hk].
  split; [exact Hnd|]. split.
  - intros k. rewrite Hk. split; [|auto]. intros [H|H]; [apply (Hk0 k H)|exact H].
  - intros k Hreq Hnot. apply fill_missing_sentinel; [exact Hreq|].
    destruct (dict_mem k d0) eqn:Hm; [|reflexivity].
    apply dict_mem_In in Hm. destruct (Hk0 k Hm) as [_ Hp]. congruence.
Qed.

(** C1. For a non-empty text, record extraction does what the client's
    call does: when the call returns (an answer or the failure value) it
    returns the dict built from that, whose keys are exactly the five
    required ones, each once, with "Not mentioned" under every key the
    answer has no line for; when the call raises, it raises. *)
Theorem extract_emr_full_record (remote : Remote) (text : string) (log : list Event) :
  text <> "" ->
  match call_gemini_api remote (emr_prompt text) 2 2 (log ++ [Enter FnExtractEmr]) with
  | (Returned result, log') =>
      extract_emr remote text log = (Returned (emr_of_result result), log') /\
      full_record result (emr_of_result result)
  | (Raised e, log') => extract_emr remote text log = (Raised e, log')
  end.
Proof.
  intros Hne. apply truthy_nonempty in Hne.
  unfold extract_emr, bind, emit, ret. rewrite Hne. cbn [negb].
  destruct (call_gemini_api remote (emr_prompt text) 2 2 (log ++ [Enter FnExtractEmr]))
    as [[result|e] log']; [|reflexivity].
  split; [reflexivity|apply emr_of_result_full_record].
Qed.

Lemma extract_emr_full_record_witness :
  fst (extract_emr garbage_remote "patient reports a dry cough" [])
    = Returned [ ("Presenting Complaint", "Not mentioned");
                 ("History of Presenting Illness", "Not mentioned");
                 ("Past Medical History", "Not mentioned");
                 ("Current Medications", "Not mentioned");
                 ("Allergies", "Not mentioned") ] /\
  full_record (Some "I am sorry, I cannot help with that request")
              (emr_of_result (Some "I am sorry, I cannot help with that request")).
Proof.
  assert (Hne : "patient reports a dry cough" <> "") by discriminate.
  split; [vm_compute; reflexivity|].
  exact (proj2 (extract_emr_full_record garbage_remote "patient reports a dry cough" [] Hne)).
Defined.

(** C1, as worded, fails on the empty text: the guard at the head of
    [extract_emr] returns the empty dict. *)
Lemma extract_emr_empty_text_counterexample :
  extract_emr garbage_remote "" [] = (Returned [], [Enter FnExtractEmr]) /\
  ~ returns_required_keys garbage_remote "" [].
Proof.
  split; [reflexivity|].
  intros (emr_data & log' & Hrun & Hkeys).
  assert (Hemr : emr_data = []) by (vm_compute in Hrun; congruence).
  subst emr_data.
  destruct (proj2 (Hkeys "Allergies")).
  simpl. tauto.
Qed.

(** * Further properties *)

(** ** Trimming *)

Section Trimming.

Lemma rstrip_idem (s : string) : rstrip (rstrip s) = rstrip s.
Proof.
  induction s as [|c s IH]; [reflexivity|].
  simpl. destruct (rstrip s) as [|r0 r] eqn:Er.
  - destruct (is_space c) eqn:Ec; [reflexivity|]. simpl. now rewrite Ec.
  - change (rstrip (String c (String r0 r)))
      with (match rstrip (String r0 r) with
            | "" => if is_space c then "" else String c ""
            | String a b => String c (String a b)
            end).
    now rewrite IH.
Qed.

Lemma rstrip_head (c : ascii) (s : string) :
  is_space c = false -> exists r, rstrip (String c s) = String c r.
Proof.
  intros Hc. simpl. destruct (rstrip s); [rewrite Hc|]; eauto.
Qed.

Lemma lstrip_head (s : string) :
  lstrip s = "" \/ exists c r, lstrip s = String c r /\ is_space c = false.
Proof.
  induction s as [|c s IH]; [now left|].
  simpl. destruct (is_space c) eqn:Ec; [exact IH|]. right. eauto.
Qed.

Lemma strip_idem (s : string) : strip (strip s) = strip s.
Proof.
  unfold strip.
  assert (H : lstrip (rstrip (lstrip s)) = rstrip (lstrip s)).
  { destruct (lstrip_head s) as [->|(c & r & -> & Hc)]; [reflexivity|].
    destruct (rstrip_head c r Hc) as [r' ->]. simpl. now rewrite Hc. }
  rewrite H. apply rstrip_idem.
Qed.

Lemma append_nonempty_r (a b : string) : b <> "" -> a +:+ b <> "".
Proof. intros Hb. destruct a; simpl; [exact Hb|discriminate]. Qed.

Lemma rstrip_app (a b : string) :
  rstrip b = b -> b <> "" -> rstrip (a +:+ b) = a +:+ b.
Proof.
  intros Hb Hne. induction a as [|c a IH]; [exact Hb|].
  change (String c a +:+ b) with (String c (a +:+ b)).
  pose proof (append_nonempty_r a b Hne) as Hab.
  simpl rstrip. rewrite IH. destruct (a +:+ b); [congruence|reflexivity].
Qed.

(** A text that opens and closes with fixed printing characters around
    an arbitrary middle part is its own trimming. *)
Lemma strip_framed (c : ascii) (a key b : string) :
  is_space c = false -> rstrip b = b -> b <> "" ->
  strip (String c a +:+ key +:+ b) = String c a +:+ key +:+ b.
Proof.
  intros Hc Hb Hne. unfold strip.
  change (String c a +:+ key +:+ b) with (String c (a +:+ key +:+ b)).
  simpl lstrip. rewrite Hc.
  change (String c (a +:+ key +:+ b)) with (String c a +:+ (key +:+ b)).
  apply rstrip_app.
  - now apply rstrip_app.
  - now apply append_nonempty_r.
Qed.

End Trimming.

(** X1. Whatever the registry holds and whatever the model does, the
    text the runner returns is already trimmed, so the [.strip()] the
    route applies to it changes nothing. *)
Theorem run_pipeline_async_text_trimmed
    (models : gmap string (option Pipeline)) (model_key : string) (input : AudioInput) :
  strip (text (run_pipeline_async models model_key input))
    = text (run_pipeline_async models model_key input).
Proof.
  unfold run_pipeline_async.
  destruct (registry_get models model_key) as [pipeline|].
  - destruct (pipeline input) as [|result]; simpl text.
    + now apply strip_framed.
    + destruct result as [t|t| |[t|]]; simpl; try apply strip_idem; reflexivity.
  - simpl text. now apply strip_framed.
Qed.

(** ** More on language detection *)







(** ** More on the remote client *)

Lemma count_posts_app (l1 l2 : list Event) :
  count_posts (l1 ++ l2) = (count_posts l1 + count_posts l2)%nat.
Proof. unfold count_posts. now rewrite List.filter_app, length_app. Qed.

Lemma parse_response_trimmed (body : Json) (t : string) :
  parse_response body = PText t -> strip t = t.
Proof.
  unfold parse_response. intros H.
  repeat match type of H with
         | match ?x with _ => _ end = _ => destruct x; try discriminate
         | (if ?b then _ else _) = _ => destruct b; try discriminate
         end.
  inversion H. apply strip_idem.
Qed.

Section AttemptLoopShape.

Variable service : Service.
Variable prompt : string.
Variable retries : Z.

Ltac loop_step :=
  cbn [seq map attempt_loop]; unfold bind at 1; unfold post.

(** The footprint of the loop over the attempts that are left: only
    requests and sleeps, one sleep between two requests, none at the end. *)
Lemma attempt_loop_footprint :
  forall (n a : nat) (delay : Z) (log : list Event),
    (Z.of_nat a + Z.of_nat n = retries + 1)%Z ->
    exists events,
      snd (attempt_loop service prompt retries (map Z.of_nat (seq a n)) delay log)
        = log ++ events /\
      Forall is_client_event events /\
      (count_posts events <= n)%nat /\
      (n <> 0%nat -> (count_sleeps events + 1 = count_posts events)%nat).
Proof.
  induction n as [|k IH]; intros a delay log Hlen.
  - exists []. simpl. rewrite app_nil_r.
    split; [reflexivity|]. split; [constructor|]. split; [reflexivity|congruence].
  - loop_step.
    assert (Hstop : forall r : Res (option string),
               exists events,
                 snd (r, log ++ [Post prompt]) = log ++ events /\
                 Forall is_client_event events /\
                 (count_posts events <= S k)%nat /\
                 (S k <> 0%nat -> (count_sleeps events + 1 = count_posts events)%nat)).
    { intros r. exists [Post prompt].
      split; [reflexivity|]. split; [repeat constructor|].
      split; [unfold count_posts; simpl; lia|intros _; reflexivity]. }
    assert (Hgo : (Z.of_nat a < retries)%Z -> forall d1 d2,
               exists events,
                 snd ((sleep d1 ;;; attempt_loop service prompt retries
                                      (map Z.of_nat (seq (S a) k)) d2)
                        (log ++ [Post prompt])) = log ++ events /\
                 Forall is_client_event events /\
                 (count_posts events <= S k)%nat /\
                 (S k <> 0%nat -> (count_sleeps events + 1 = count_posts events)%nat)).
    { intros Hlt d1 d2. unfold bind, sleep, emit.
      destruct (IH (S a) d2 ((log ++ [Post prompt]) ++ [Sleep d1]))
        as (events & Hev & Hcl & Hposts & Hsl); [lia|].
      exists (Post prompt :: Sleep d1 :: events).
      rewrite Hev, <- !app_assoc. split; [reflexivity|].
      split; [repeat constructor; exact Hcl|].
      assert (k <> 0%nat) by lia. specialize (Hsl H).
      unfold count_posts, count_sleeps in *. simpl. split; lia. }
    unfold ret, raise.
    destruct (service log prompt) as [status header| | | |result].
    + destruct (status =? 429)%Z; cbn [andb].
      * destruct (Z.ltb_spec (Z.of_nat a) retries) as [Hlt|Hge].
        -- destruct header as [|R|msg]; [now apply Hgo|now apply Hgo|apply Hstop].
        -- rewrite andb_false_r. apply Hstop.
      * destruct (Z.ltb_spec (Z.of_nat a) retries) as [Hlt|Hge].
        -- destruct ((500 <=? status)%Z && (status <? 600)%Z); cbn [andb];
             [now apply Hgo|apply Hstop].
        -- rewrite !andb_false_r. apply Hstop.
    + destruct (Z.ltb_spec (Z.of_nat a) retries); [now apply Hgo|apply Hstop].
    + destruct (Z.ltb_spec (Z.of_nat a) retries); [now apply Hgo|apply Hstop].
    + destruct (Z.leb_spec retries (Z.of_nat a)); [apply Hstop|now apply Hgo].
    + destruct (parse_response result) as [t| |].
      * apply Hstop.
      * destruct (Z.ltb_spec (Z.of_nat a) retries) as [Hlt|Hge]; [now apply Hgo|].
        assert (k = 0%nat) by lia. subst k. exact (Hstop (Returned None)).
      * destruct (Z.leb_spec retries (Z.of_nat a)); [apply Hstop|now apply Hgo].
Qed.

(** Failures retried with a doubled delay, [k] of them, then an outcome
    the loop stops on with the result [r]. *)
Lemma attempt_loop_backoff_then (stops_on : Outcome -> Prop) (r : option string) :
  (forall (attempt : Z) (rest : list Z) (delay : Z) (log : list Event),
      stops_on (service log prompt) ->
      attempt_loop service prompt retries (attempt :: rest) delay log
        = (Returned r, log ++ [Post prompt])) ->
  forall (k n a : nat) (delay : Z) (log : list Event) (base : nat),
    (Z.of_nat a + Z.of_nat n = retries + 1)%Z ->
    (k < n)%nat ->
    (forall l, (base <= count_posts l < base + k)%nat ->
               is_backoff_failure (service l prompt)) ->
    (forall l, count_posts l = (base + k)%nat -> stops_on (service l prompt)) ->
    count_posts log = base ->
    attempt_loop service prompt retries (map Z.of_nat (seq a n)) delay log
      = (Returned r, log ++ backoff_trace prompt (S k) delay).
Proof.
  intros Hstop. induction k as [|k IH]; intros n a delay log base Hlen Hk Hfail Hlast Hbase.
  - destruct n as [|n]; [lia|]. cbn [seq map].
    apply Hstop. apply Hlast. lia.
  - destruct n as [|n]; [lia|].
    assert (Hlt : (Z.of_nat a <? retries)%Z = true) by (apply Z.ltb_lt; lia).
    assert (Hnext :
              (sleep delay ;;; attempt_loop service prompt retries
                                 (map Z.of_nat (seq (S a) n)) (delay * 2)%Z)
                (log ++ [Post prompt])
              = (Returned r, log ++ backoff_trace prompt (S (S k)) delay)).
    { unfold bind, sleep, emit.
      rewrite (IH n (S a) (delay * 2)%Z _ (S base)); try lia.
      - cbn [backoff_trace]. now rewrite <- !app_assoc.
      - intros l Hl. apply Hfail. lia.
      - intros l Hl. apply Hlast. lia.
      - rewrite !count_posts_app, Hbase. unfold count_posts. simpl. lia. }
    loop_step.
    destruct (Hfail log) as [(status & header & -> & Hrange)|[->| ->]]; [lia| | |].
    + assert (Hne : (status =? 429)%Z = false) by (apply Z.eqb_neq; lia).
      assert (Hlo : (500 <=? status)%Z = true) by (apply Z.leb_le; lia).
      assert (Hhi : (status <? 600)%Z = true) by (apply Z.ltb_lt; lia).
      rewrite Hne, Hlo, Hhi, Hlt. cbn [andb]. exact Hnext.
    + rewrite Hlt. exact Hnext.
    + rewrite Hlt. exact Hnext.
Qed.

Lemma attempt_loop_rejected_bodies :
  (forall l p, is_rejected_body (service l p)) ->
  forall (n a : nat) (delay : Z) (log : list Event),
    (Z.of_nat a + Z.of_nat n = retries + 1)%Z ->
    attempt_loop service prompt retries (map Z.of_nat (seq a n)) delay log
      = (Returned None, log ++ steady_trace prompt n delay).
Proof.
  intros Hrej. induction n as [|k IH]; intros a delay log Hlen.
  - simpl. unfold ret. now rewrite app_nil_r.
  - loop_step.
    destruct (Hrej log prompt) as (body & -> & Hbody).
    assert (Hlast : k = 0%nat ->
               (Returned (@None string), log ++ [Post prompt])
               = (Returned None, log ++ steady_trace prompt (S k) delay))
      by (intros ->; reflexivity).
    assert (Hnext : k <> 0%nat ->
               (sleep delay ;;; attempt_loop service prompt retries
                                  (map Z.of_nat (seq (S a) k)) delay)
                 (log ++ [Post prompt])
               = (Returned None, log ++ steady_trace prompt (S k) delay)).
    { intros Hk. unfold bind, sleep, emit. rewrite IH by lia.
      destruct k; [congruence|]. cbn [steady_trace]. now rewrite <- !app_assoc. }
    destruct (parse_response body) as [t| |] eqn:Hp; [now destruct (Hbody t)| |].
    + destruct (Z.ltb_spec (Z.of_nat a) retries); [apply Hnext; lia|].
      assert (k = 0%nat) by lia. subst k. unfold bind, ret. simpl. reflexivity.
    + destruct (Z.leb_spec retries (Z.of_nat a)); [apply Hlast; lia|apply Hnext; lia].
Qed.

Lemma attempt_loop_result_trimmed (attempts : list Z) :
  forall (delay : Z) (log : list Event) (t : string) (log' : list Event),
    attempt_loop service prompt retries attempts delay log = (Returned (Some t), log') ->
    strip t = t.
Proof.
  induction attempts as [|attempt rest IH]; intros delay log t log'.
  - simpl. unfold ret. congruence.
  - cbn [attempt_loop]. unfold bind at 1. unfold post.
    assert (Hgo : forall d1 d2,
               (sleep d1 ;;; attempt_loop service prompt retries rest d2)
                 (log ++ [Post prompt]) = (Returned (Some t), log') -> strip t = t).
    { intros d1 d2. unfold bind, sleep, emit. apply IH. }
    destruct (service log prompt) as [status header| | | |result].
    + destruct ((status =? 429)%Z && (attempt <? retries)%Z).
      * destruct header as [|R|msg]; [apply Hgo|apply Hgo|unfold raise; congruence].
      * destruct ((500 <=? status)%Z && (status <? 600)%Z && (attempt <? retries)%Z);
          [apply Hgo|unfold ret; congruence].
    + destruct (attempt <? retries)%Z; [apply Hgo|unfold ret; congruence].
    + destruct (attempt <? retries)%Z; [apply Hgo|unfold ret; congruence].
    + destruct (retries <=? attempt)%Z; [unfold ret; congruence|apply Hgo].
    + destruct (parse_response result) as [t0| |] eqn:Hp.
      * unfold ret. intros H. inversion H. subst t0. now apply parse_response_trimmed in Hp.
      * destruct (attempt <? retries)%Z; [apply Hgo|].
        unfold bind, ret. apply IH.
      * destruct (retries <=? attempt)%Z; [unfold ret; congruence|apply Hgo].
Qed.

End AttemptLoopShape.



(** X5. Retry, then success: if the first [k <= retries] requests of a
    call fail with a status of the 500 class, a timeout or a connection
    error, and the next one is answered by a body the checks accept with
    text [t], the call returns [t] after [k + 1] requests, having slept
    [delay], [2 * delay], ... between them. *)
Theorem backoff_then_answer
    (remote : Remote) (prompt : string) (retries delay : Z) (log : list Event)
    (api_url : string) (k : nat) (t : string) :
  GEMINI_API_URL remote = Some api_url ->
  truthy api_url = true ->
  (Z.of_nat k <= retries)%Z ->
  (forall l, (count_posts log <= count_posts l < count_posts log + k)%nat ->
             is_backoff_failure (gemini remote l prompt)) ->
  (forall l, count_posts l = (count_posts log + k)%nat ->
             exists body, gemini remote l prompt = JsonResult body /\
                          parse_response body = PText t) ->
  call_gemini_api remote prompt retries delay log
    = (Returned (Some t), log ++ backoff_trace prompt (S k) delay).
Proof.
  intros Hurl Htruthy Hk Hfail Hlast.
  unfold call_gemini_api, py_range. rewrite Hurl, Htruthy. cbn [negb].
  apply (attempt_loop_backoff_then (gemini remote) prompt retries
           (fun o => exists body, o = JsonResult body /\ parse_response body = PText t)
           (Some t)) with (base := count_posts log); try lia; auto.
  intros attempt rest d l (body & Hans & Hparse).
  cbn [attempt_loop]. unfold bind, post. now rewrite Hans, Hparse.
Qed.

Lemma backoff_then_answer_witness :
  call_gemini_api recovering_remote "prompt" 2 2 []
    = (Returned (Some "Cardiology."),
       [Post "prompt"; Sleep 2; Post "prompt"; Sleep 4; Post "prompt"]).
Proof.
  assert (Hk : (Z.of_nat 2 <= 2)%Z) by lia.
  refine (backoff_then_answer recovering_remote "prompt" 2 2 []
            "https://example.invalid/generate" 2 "Cardiology." eq_refl eq_refl Hk _ _).
  - intros l Hl. simpl in Hl. unfold recovering_remote. cbn [gemini].
    destruct (count_posts l) as [|[|n]]; [|right; now left|lia].
    left. exists 503%Z, RA_absent. split; [reflexivity|lia].
  - intros l Hl. simpl in Hl. unfold recovering_remote. cbn [gemini]. rewrite Hl.
    eexists. split; reflexivity.
Defined.

(** X6. Retry, then refusal: if after [k <= retries] such failures the
    service answers with an error status that is neither 429 nor of the
    500 class, the call stops there and returns the failure value, with
    no sleep after that request; with [k = 0] it fails at once. *)
Theorem backoff_then_refusal
    (remote : Remote) (prompt : string) (retries delay : Z) (log : list Event)
    (api_url : string) (k : nat) :
  GEMINI_API_URL remote = Some api_url ->
  truthy api_url = true ->
  (Z.of_nat k <= retries)%Z ->
  (forall l, (count_posts log <= count_posts l < count_posts log + k)%nat ->
             is_backoff_failure (gemini remote l prompt)) ->
  (forall l, count_posts l = (count_posts log + k)%nat ->
             exists status header,
               gemini remote l prompt = ClientResponseError status header /\
               status <> 429%Z /\ ~ (500 <= status < 600)%Z) ->
  call_gemini_api remote prompt retries delay log
    = (Returned None, log ++ backoff_trace prompt (S k) delay).
Proof.
  intros Hurl Htruthy Hk Hfail Hlast.
  unfold call_gemini_api, py_range. rewrite Hurl, Htruthy. cbn [negb].
  apply (attempt_loop_backoff_then (gemini remote) prompt retries
           (fun o => exists status header,
                o = ClientResponseError status header /\
                status <> 429%Z /\ ~ (500 <= status < 600)%Z)
           None) with (base := count_posts log); try lia; auto.
  intros attempt rest d l (status & header & Hans & Hne & Hout).
  cbn [attempt_loop]. unfold bind, post. rewrite Hans.
  assert (H429 : (status =? 429)%Z = false) by now apply Z.eqb_neq.
  assert (H5 : (500 <=? status)%Z && (status <? 600)%Z = false).
  { destruct (Z.leb_spec 500 status); destruct (Z.ltb_spec status 600); try reflexivity.
    exfalso. apply Hout. lia. }
  rewrite H429, H5. reflexivity.
Qed.

Lemma backoff_then_refusal_witness :
  call_gemini_api forbidden_remote "prompt" 2 2 [] = (Returned None, [Post "prompt"]).
Proof.
  assert (Hk : (Z.of_nat 0 <= 2)%Z) by lia.
  refine (backoff_then_refusal forbidden_remote "prompt" 2 2 []
            "https://example.invalid/generate" 0 eq_refl eq_refl Hk _ _).
  - intros l Hl. simpl in Hl. lia.
  - intros l _. exists 403%Z, RA_absent. split; [reflexivity|]. split; lia.
Defined.

(** X7. A service whose every answer is a body the layered checks turn
    down (no candidates, no content, no parts, no text, or a shape that
    makes the parsing raise) is asked [retries + 1] times with the same
    [delay] slept between requests, never doubled, and the call returns
    the failure value. *)
Theorem rejected_bodies_keep_the_delay
    (remote : Remote) (prompt : string) (retries delay : Z) (log : list Event)
    (api_url : string) :
  GEMINI_API_URL remote = Some api_url ->
  truthy api_url = true ->
  (-1 <= retries)%Z ->
  (forall l p, is_rejected_body (gemini remote l p)) ->
  call_gemini_api remote prompt retries delay log
    = (Returned None, log ++ steady_trace prompt (Z.to_nat (retries + 1)) delay).
Proof.
  intros Hurl Htruthy Hretries Hrej.
  unfold call_gemini_api, py_range. rewrite Hurl, Htruthy. cbn [negb].
  apply attempt_loop_rejected_bodies; [exact Hrej|lia].
Qed.

Lemma rejected_bodies_witness :
  call_gemini_api empty_body_remote "prompt" 2 5 []
    = (Returned None,
       [Post "prompt"; Sleep 5; Post "prompt"; Sleep 5; Post "prompt"]).
Proof.
  assert (Hretries : (-1 <= 2)%Z) by lia.
  refine (rejected_bodies_keep_the_delay empty_body_remote "prompt" 2 5 []
            "https://example.invalid/generate" eq_refl eq_refl Hretries _).
  intros l p. exists (JDict []). split; [reflexivity|]. intros t. discriminate.
Defined.

(** X8. Any text a call returns is trimmed. *)
Theorem call_gemini_api_result_trimmed
    (remote : Remote) (prompt : string) (retries delay : Z) (log log' : list Event)
    (t : string) :
  call_gemini_api remote prompt retries delay log = (Returned (Some t), log') ->
  strip t = t.
Proof.
  unfold call_gemini_api.
  destruct (GEMINI_API_URL remote) as [api_url|]; [|unfold ret; congruence].
  destruct (negb (truthy api_url)); [unfold ret; congruence|].
  apply attempt_loop_result_trimmed.
Qed.

Lemma call_result_trimmed_witness : strip "Cardiology." = "Cardiology.".
Proof.
  exact (call_gemini_api_result_trimmed recovering_remote "prompt" 2 2 []
           [Post "prompt"; Sleep 2; Post "prompt"; Sleep 4; Post "prompt"]
           "Cardiology." eq_refl).
Defined.

(** ** More on the field extractors *)

Section LineFolds.

Variable step : Dict -> string -> Dict.
Variable keys : list string.
Variable speaks : string -> string -> bool.

Hypothesis step_cases : forall (d : Dict) (line : string),
  step d line = d \/
  exists k v,
    step d line = dict_set k v d /\ dict_mem k d = false /\
    In k keys /\ speaks k line = true.

Lemma fold_lines_keys (lines : list string) (d : Dict) :
  NoDup (dict_keys d) ->
  NoDup (dict_keys (fold_left step lines d)) /\
  (forall k, In k (dict_keys (fold_left step lines d)) ->
             In k (dict_keys d) \/ (In k keys /\ existsb (speaks k) lines = true)).
Proof.
  revert d. induction lines as [|line lines IH]; intros d Hnd.
  - split; [exact Hnd|]. intros k H. now left.
  - cbn [fold_left existsb].
    destruct (step_cases d line) as [->|(x & v & -> & Hm & Hreq & Hsp)].
    + destruct (IH d Hnd) as [Hnd' Hk]. split; [exact Hnd'|].
      intros k H. destruct (Hk k H) as [H1|[H1 H2]]; [now left|right].
      split; [exact H1|]. rewrite H2. apply orb_true_r.
    + assert (Hnd1 : NoDup (dict_keys (dict_set x v d))).
      { rewrite dict_keys_set, Hm. apply dict_mem_not_In in Hm.
        apply NoDup_app. split; [exact Hnd|]. split.
        - intros y Hy Hin. apply list_elem_of_In in Hy, Hin.
          destruct Hin as [<-|[]]. contradiction.
        - apply NoDup_singleton. }
      destruct (IH _ Hnd1) as [Hnd' Hk]. split; [exact Hnd'|].
      intros k H. destruct (Hk k H) as [H1|[H1 H2]].
      * rewrite dict_keys_set, Hm, in_app_iff in H1.
        destruct H1 as [H1|[<-|[]]]; [now left|right].
        split; [exact Hreq|]. now rewrite Hsp.
      * right. split; [exact H1|]. rewrite H2. apply orb_true_r.
Qed.

(** An entry, once written, is never overwritten by a later line. *)
Lemma fold_lines_keeps (lines : list string) (d : Dict) (k v : string) :
  assoc_get k d = Some v -> assoc_get k (fold_left step lines d) = Some v.
Proof.
  revert d. induction lines as [|line lines IH]; intros d H; [exact H|].
  cbn [fold_left]. apply IH.
  destruct (step_cases d line) as [->|(x & w & -> & Hm & _ & _)]; [exact H|].
  rewrite assoc_get_set. destruct (String.eqb_spec x k) as [->|]; [|exact H].
  unfold dict_mem in Hm. rewrite H in Hm. discriminate.
Qed.

End LineFolds.

Lemma suggestion_line_cases (d : Dict) (line : string) :
  suggestion_line d line = d \/
  exists k v,
    suggestion_line d line = dict_set k v d /\ dict_mem k d = false /\
    In k required_suggestion_keys /\ suggestion_line_speaks_for k line = true.
Proof.
  unfold suggestion_line, suggestion_line_speaks_for.
  destruct (split_once colon (strip line)) as [[key value]|]; [|now left].
  cbv zeta. set (key' := remove_char colon (strip key)).
  assert (Hexact :
            (if list_mem key' required_suggestion_keys && negb (dict_mem key' d)
             then dict_set key' (strip value) d else d) = d \/
            exists k v,
              (if list_mem key' required_suggestion_keys && negb (dict_mem key' d)
               then dict_set key' (strip value) d else d) = dict_set k v d /\
              dict_mem k d = false /\ In k required_suggestion_keys /\
              String.eqb (lower k) (lower key') || String.eqb key' k = true).
  { destruct (list_mem key' required_suggestion_keys && negb (dict_mem key' d)) eqn:H;
      [|now left].
    apply andb_prop in H as [Hin Hm]. right. exists key', (strip value).
    split; [reflexivity|]. split; [now apply negb_true_iff|].
    split; [now apply list_mem_In|].
    apply orb_true_iff. right. apply String.eqb_refl. }
  destruct (matched_key required_suggestion_keys key') as [mk|] eqn:Hmk; [|exact Hexact].
  destruct (truthy mk && negb (dict_mem mk d)) eqn:H; [|exact Hexact].
  apply andb_prop in H as [_ Hm]. right. exists mk, (strip value).
  split; [reflexivity|]. split; [now apply negb_true_iff|].
  unfold matched_key in Hmk. apply find_some in Hmk as [Hin Heq].
  split; [exact Hin|]. now rewrite Heq.
Qed.

Lemma suggestions_of_result_full (result : option string) :
  full_suggestions result (suggestions_of_result result).
Proof.
  unfold suggestions_of_result.
  set (d0 := match result with
             | Some r =>
                 if truthy r then fold_left suggestion_line (split newline (strip r)) []
                 else []
             | None => []
             end).
  assert (H0 : NoDup (dict_keys d0) /\
               forall k, In k (dict_keys d0) ->
                         In k required_suggestion_keys /\ suggestion_produced k result = true).
  { subst d0. destruct result as [r|]; [|split; [constructor|intros k []]].
    unfold suggestion_produced. destruct (truthy r); [|split; [constructor|intros k []]].
    destruct (fold_lines_keys suggestion_line required_suggestion_keys
                suggestion_line_speaks_for suggestion_line_cases
                (split newline (strip r)) []) as [Hnd Hk]; [constructor|].
    split; [exact Hnd|]. intros k H. destruct (Hk k H) as [[]|[H1 H2]].
    split; [exact H1|]. now rewrite H2. }
  destruct H0 as [Hnd0 Hk0].
  destruct (fill_missing_keys "Not specified" required_suggestion_keys d0 Hnd0) as [Hnd Hk].
  split; [exact Hnd|]. split.
  - intros k. rewrite Hk. split; [|auto]. intros [H|H]; [apply (Hk0 k H)|exact H].
  - intros k Hreq Hnot. apply fill_missing_sentinel; [exact Hreq|].
    destruct (dict_mem k d0) eqn:Hm; [|reflexivity].
    apply dict_mem_In in Hm. destruct (Hk0 k Hm) as [_ Hp]. congruence.
Qed.

Lemma join_truthy (sep x : string) (rest : list string) :
  truthy x = true -> truthy (join sep (x :: rest)) = true.
Proof.
  intros Hx. destruct x as [|c x]; [discriminate|].
  destruct rest; reflexivity.
Qed.

Lemma emr_summary_truthy (emr_data : Dict) :
  forallb is_not_mentioned (dict_values emr_data) = false ->
  truthy (emr_summary emr_data) = true.
Proof.
  unfold emr_summary, dict_values.
  induction emr_data as [|[k v] d IH]; [discriminate|].
  cbn [map forallb List.filter snd].
  destruct (is_not_mentioned v); cbn [andb negb]; [exact IH|].
  intros _. cbn [map]. now apply join_truthy.
Qed.

(** X9. A record that is empty, or whose values all read "not
    mentioned" in any letter case, gets the empty dict from suggestion
    generation, not the five defaults, and nothing is sent to the
    service. *)
Theorem generate_suggestions_skips_blank_record
    (remote : Remote) (emr_data : Dict) (log : list Event) :
  forallb is_not_mentioned (dict_values emr_data) = true ->
  generate_suggestions remote emr_data log
    = (Returned [], log ++ [Enter FnGenerateSuggestions]).
Proof.
  intros H. unfold generate_suggestions, bind, emit, ret.
  rewrite H, orb_true_r. reflexivity.
Qed.

Lemma generate_suggestions_skip_witness :
  generate_suggestions garbage_remote
    [("Presenting Complaint", "NOT MENTIONED"); ("Allergies", "Not mentioned")] []
  = (Returned [], [Enter FnGenerateSuggestions]).
Proof.
  exact (generate_suggestions_skips_blank_record garbage_remote
           [("Presenting Complaint", "NOT MENTIONED"); ("Allergies", "Not mentioned")] []
           eq_refl).
Defined.

Lemma generate_suggestions_run (remote : Remote) (emr_data : Dict) (log : list Event) :
  forallb is_not_mentioned (dict_values emr_data) = false ->
  match call_gemini_api remote (suggestions_prompt (emr_summary emr_data)) 2 2
          (log ++ [Enter FnGenerateSuggestions]) with
  | (Returned result, log') =>
      generate_suggestions remote emr_data log
        = (Returned (suggestions_of_result result), log') /\
      full_suggestions result (suggestions_of_result result)
  | (Raised e, log') => generate_suggestions remote emr_data log = (Raised e, log')
  end.
Proof.
  intros H. pose proof (emr_summary_truthy emr_data H) as Hsum.
  assert (Hlen : (length emr_data =? 0)%nat = false).
  { destruct emr_data; [discriminate|reflexivity]. }
  unfold generate_suggestions, bind, emit, ret. fold (emr_summary emr_data).
  rewrite Hlen, H, Hsum. cbn [orb negb].
  destruct (call_gemini_api remote (suggestions_prompt (emr_summary emr_data)) 2 2
              (log ++ [Enter FnGenerateSuggestions])) as [[result|e] log']; [|reflexivity].
  split; [reflexivity|apply suggestions_of_result_full].
Qed.

(** X10. For a record with at least one value other than "not
    mentioned", suggestion generation does what the client's call on the
    summary of the record does: when the call returns it returns the
    dict built from the answer, whose keys are exactly the five
    suggestion keys, each once, with "Not specified" under every key the
    answer has no line for; when the call raises, it raises. *)
Theorem generate_suggestions_full_record
    (remote : Remote) (emr_data : Dict) (log : list Event) :
  forallb is_not_mentioned (dict_values emr_data) = false ->
  match call_gemini_api remote (suggestions_prompt (emr_summary emr_data)) 2 2
          (log ++ [Enter FnGenerateSuggestions]) with
  | (Returned result, log') =>
      generate_suggestions remote emr_data log
        = (Returned (suggestions_of_result result), log') /\
      full_suggestions result (suggestions_of_result result)
  | (Raised e, log') => generate_suggestions remote emr_data log = (Raised e, log')
  end.
Proof. exact (generate_suggestions_run remote emr_data log). Qed.

Lemma generate_suggestions_full_record_witness :
  fst (generate_suggestions (always (JsonResult (ok_json suggestions_answer)))
         informative_record [])
    = Returned [ ("Differential Diagnosis", "viral infection");
                 ("Follow-up Recommendations", "review in a week");
                 ("Further Investigations", "Not specified");
                 ("Potential Treatment Options", "Not specified");
                 ("Specialist Referrals (if applicable)", "Not specified") ] /\
  full_suggestions (Some suggestions_answer) (suggestions_of_result (Some suggestions_answer)).
Proof.
  split; [vm_compute; reflexivity|].
  exact (proj2 (generate_suggestions_full_record
                  (always (JsonResult (ok_json suggestions_answer)))
                  informative_record [] eq_refl)).
Defined.

Lemma emr_line_fresh (d : Dict) (line k v : string) :
  emr_line [] line = [(k, v)] -> dict_mem k d = false ->
  emr_line d line = dict_set k v d.
Proof.
  unfold emr_line.
  destruct (split_once colon (strip line)) as [[key value]|]; [|discriminate].
  cbv zeta. change (dict_mem ?x []) with false. cbn [negb].
  rewrite !andb_true_r.
  assert (Hexact :
            (if list_mem (strip key) required_keys
             then dict_set (strip key) (strip value) [] else []) = [(k, v)] ->
            dict_mem k d = false ->
            (if list_mem (strip key) required_keys && negb (dict_mem (strip key) d)
             then dict_set (strip key) (strip value) d else d) = dict_set k v d).
  { destruct (list_mem (strip key) required_keys); [|discriminate].
    simpl. intros H Hm. inversion H. subst. now rewrite Hm. }
  destruct (matched_key required_keys (strip (remove_char colon (strip key)))) as [mk|];
    [|exact Hexact].
  destruct (truthy mk); cbn [andb]; [|exact Hexact].
  simpl. intros H Hm. inversion H. subst. now rewrite Hm.
Qed.

(** X11. The first line wins: the value recorded under a key is the one
    of the first line of the answer that carries the key, cut at that
    line's first colon; later lines for the same key change nothing. *)
Theorem extract_emr_first_line_wins
    (r : string) (before after : list string) (line k v : string) :
  truthy r = true ->
  split newline (strip r) = before ++ line :: after ->
  (forall l, In l before -> line_speaks_for k l = false) ->
  emr_line [] line = [(k, v)] ->
  assoc_get k (emr_of_result (Some r)) = Some v.
Proof.
  intros Hr Hsplit Hbefore Hline. unfold emr_of_result. rewrite Hr, Hsplit.
  apply fill_missing_keeps. rewrite fold_left_app. cbn [fold_left].
  set (d1 := fold_left emr_line before []).
  assert (Hfresh : dict_mem k d1 = false).
  { destruct (dict_mem k d1) eqn:Hm; [|reflexivity]. apply dict_mem_In in Hm.
    destruct (fold_emr_line before []) as [_ Hk]; [constructor|].
    destruct (Hk k Hm) as [[]|[_ Hsp]].
    apply existsb_exists in Hsp as (l & Hl & Hsp). rewrite (Hbefore l Hl) in Hsp.
    discriminate. }
  rewrite (emr_line_fresh d1 line k v Hline Hfresh).
  apply (fold_lines_keeps emr_line required_keys line_speaks_for emr_line_cases).
  rewrite assoc_get_set, String.eqb_refl. reflexivity.
Qed.

Lemma first_line_wins_witness :
  assoc_get "Allergies" (emr_of_result (Some repeated_answer)) = Some "penicillin: rash".
Proof.
  refine (extract_emr_first_line_wins repeated_answer []
            ["ALLERGIES: none"; "Current Medications: aspirin"]
            "Allergies: penicillin: rash" "Allergies" "penicillin: rash" eq_refl _ _ _).
  - vm_compute. reflexivity.
  - intros l [].
  - vm_compute. reflexivity.
Defined.

(** ** More on the orchestrator *)

Lemma allowed_language_inv (l : string) :
  allowed_language l = true -> l = "en" \/ l = "ml".
Proof.
  unfold allowed_language, ALLOWED_LANGUAGES. intros H.
  apply bool_decide_eq_true in H. set_solver.
Qed.

Lemma validate_language_inv specified eff method :
  validate_language specified = Returned (eff, method) ->
  (eff = None /\ method = "automatic" /\ (specified = None \/ specified = Some "")) \/
  (exists l, specified = Some l /\ l <> "" /\ eff = Some (strip (lower l)) /\
             method = "specified" /\
             (strip (lower l) = "en" \/ strip (lower l) = "ml")).
Proof.
  unfold validate_language. destruct specified as [l|].
  - destruct (truthy l) eqn:Hl.
    + destruct (allowed_language (strip (lower l))) eqn:Ha; [|discriminate].
      intros H. inversion H. right. exists l.
      apply truthy_nonempty in Hl. apply allowed_language_inv in Ha. auto.
    + intros H. inversion H. left. destruct l; [auto|discriminate].
  - intros H. inversion H. auto.
Qed.

Lemma determine_language_inv (env : Env) eff method audio_data sr :
  (eff = None /\ method = "automatic") \/
  (exists l, eff = Some l /\ method = "specified" /\ (l = "en" \/ l = "ml")) ->
  let resolved := determine_language env eff method audio_data sr in
  (fst resolved = "en" \/ fst resolved = "ml") /\
  snd resolved = method /\
  (forall l, eff = Some l -> fst resolved = l).
Proof.
  intros [[-> ->]|(l & -> & -> & Hl)]; unfold determine_language; cbv zeta.
  - match goal with |- context [if ?b then _ else _] => destruct b eqn:Hb end;
      cbn [fst snd].
    + split; [now left|]. split; [reflexivity|]. intros l H. discriminate.
    + apply orb_false_elim in Hb as [_ Hb]. apply negb_false_iff in Hb.
      apply allowed_language_inv in Hb.
      split; [exact Hb|]. split; [reflexivity|]. intros l H. discriminate.
  - cbn [fst snd]. split; [exact Hl|]. split; [reflexivity|].
    intros l' H. now inversion H.
Qed.

Lemma transcribe_and_translate_inv (env : Env) lang input log lang' raw final log1 :
  transcribe_and_translate env lang input log = (Returned (lang', raw, final), log1) ->
  raw = stage_text env lang input /\
  str_in "Error:" raw = false /\
  ((lang = "ml" /\ lang' = "ml" /\ str_in "unavailable" (lower final) = false) \/
   (lang <> "ml" /\ lang' = "en" /\ final = raw /\ log1 = log)).
Proof.
  unfold transcribe_and_translate, stage_text, transcription_model_key.
  destruct (String.eqb_spec lang "ml") as [->|Hne].
  - set (r := strip (text (run_pipeline_async (asr_models env) "whisper_ml" input))).
    destruct (str_in "Error:" r) eqn:Hm; [unfold raise; discriminate|].
    assert (Hdone : forall fin,
               str_in "unavailable" (lower fin) = false ->
               r = r /\ str_in "Error:" r = false /\
               (("ml" = "ml" /\ "ml" = "ml" /\ str_in "unavailable" (lower fin) = false) \/
                ("ml" <> "ml" /\ "ml" = "en" /\ fin = r /\ log1 = log))).
    { intros fin Hfin. split; [reflexivity|]. split; [exact Hm|]. left. auto. }
    destruct (negb (truthy r)).
    + unfold ret. intros H. inversion H. subst. now apply Hdone.
    + unfold bind, try_except, ret.
      destruct (translate_with_gemini (remote env) r log) as [[tr|e] l1].
      * destruct (negb (truthy tr) || str_in "unavailable" (lower tr)) eqn:Hc;
          intros H; inversion H; subst; [now apply Hdone|].
        apply orb_false_elim in Hc as [_ Hc]. now apply Hdone.
      * intros H. inversion H. subst. now apply Hdone.
  - set (r := strip (text (run_pipeline_async (asr_models env) "whisper_en" input))).
    destruct (str_in "Error:" r) eqn:Hm; [unfold raise; discriminate|].
    unfold ret. intros H. inversion H. subst. split; [reflexivity|]. split; [exact Hm|].
    right. auto.
Qed.

Lemma route_returned_inv (env : Env) specified audio_data sr log resp log' :
  transcribe_audio_route env specified audio_data sr log = (Returned resp, log') ->
  exists eff method lang raw final log1 emr_data sg,
    validate_language specified = Returned (eff, method) /\
    audio_data <> [] /\
    transcribe_and_translate env
      (fst (determine_language env eff method audio_data sr))
      {| raw := audio_data; sampling_rate := sr |} log
      = (Returned (lang, raw, final), log1) /\
    emr_and_suggestions env final log1 = (Returned (emr_data, sg), log') /\
    resp = {| status := "success";
              detection_method := snd (determine_language env eff method audio_data sr);
              effective_language := lang;
              raw_transcription := raw;
              processed_text := final;
              emr := emr_data;
              suggestions := sg |}.
Proof.
  unfold transcribe_audio_route.
  destruct (validate_language specified) as [[eff method]|e]; [|unfold raise; discriminate].
  unfold try_except, process_audio.
  destruct audio_data as [|x audio]; [unfold raise; discriminate|].
  cbn [length Nat.eqb].
  destruct (determine_language env eff method (x :: audio) sr) as [l m] eqn:Hd.
  unfold bind.
  destruct (transcribe_and_translate env l _ log) as [[[[lang raw] final]|e] log1] eqn:Htt;
    [|unfold raise; discriminate].
  destruct (emr_and_suggestions env final log1) as [[[emr_data sg]|e] log2] eqn:Hes;
    [|unfold raise; discriminate].
  unfold ret. intros H. inversion H. subst.
  exists eff, method, lang, raw, final, log1, emr_data, sg.
  rewrite Hd. cbn [fst snd]. repeat split; try assumption; try reflexivity. discriminate.
Qed.

(** X12. Every response the route returns says "success", names "en" or
    "ml" as the effective language, and carries a transcription free of
    the marker "Error:"; for "en" the processed text is the
    transcription itself, for "ml" it never contains "unavailable". *)
Theorem response_shape (env : Env) specified audio_data sr log resp log' :
  transcribe_audio_route env specified audio_data sr log = (Returned resp, log') ->
  status resp = "success" /\
  (effective_language resp = "en" \/ effective_language resp = "ml") /\
  str_in "Error:" (raw_transcription resp) = false /\
  (effective_language resp = "en" -> processed_text resp = raw_transcription resp) /\
  (effective_language resp = "ml" ->
   str_in "unavailable" (lower (processed_text resp)) = false).
Proof.
  intros H.
  apply route_returned_inv in H
    as (eff & method & lang & raw & final & log1 & emr_data & sg & _ & _ & Htt & _ & ->).
  apply transcribe_and_translate_inv in Htt as (_ & Hm & Hcases).
  cbn [status effective_language raw_transcription processed_text].
  split; [reflexivity|].
  destruct Hcases as [(_ & -> & Hun)|(_ & -> & -> & _)].
  - split; [now right|]. split; [exact Hm|]. split; [discriminate|auto].
  - split; [now left|]. split; [exact Hm|]. split; [auto|discriminate].
Qed.

Lemma response_shape_witness :
  exists resp log',
    transcribe_audio_route sentinel_env (Some "en") sample_audio 16000 []
      = (Returned resp, log') /\
    status resp = "success" /\
    (effective_language resp = "en" \/ effective_language resp = "ml") /\
    str_in "Error:" (raw_transcription resp) = false /\
    (effective_language resp = "en" -> processed_text resp = raw_transcription resp) /\
    (effective_language resp = "ml" ->
     str_in "unavailable" (lower (processed_text resp)) = false).
Proof.
  eexists. eexists. split; [vm_compute; reflexivity|].
  eapply (response_shape sentinel_env (Some "en") sample_audio 16000 []).
  vm_compute. reflexivity.
Defined.

(** X13. An explicit language is honoured: when the form field holds a
    non-empty text that reads "en" or "ml" once lower-cased and trimmed,
    every response reports the method "specified" and that language;
    without the field, or with an empty one, the method is "automatic". *)
Theorem explicit_language_is_honoured (env : Env) specified audio_data sr log resp log' :
  transcribe_audio_route env specified audio_data sr log = (Returned resp, log') ->
  (forall l, specified = Some l -> l <> "" ->
             detection_method resp = "specified" /\
             effective_language resp = strip (lower l)) /\
  (specified = None \/ specified = Some "" -> detection_method resp = "automatic").
Proof.
  intros H.
  apply route_returned_inv in H
    as (eff & method & lang & raw & final & log1 & emr_data & sg & Hval & _ & Htt & _ & ->).
  cbn [detection_method effective_language].
  apply validate_language_inv in Hval.
  assert (Hres :
            (eff = None /\ method = "automatic") \/
            (exists l, eff = Some l /\ method = "specified" /\ (l = "en" \/ l = "ml"))).
  { destruct Hval as [(-> & -> & _)|(l & _ & _ & -> & -> & Hl)]; [now left|right; eauto]. }
  destruct (determine_language_inv env eff method audio_data sr Hres) as (Hlang & Hmeth & Heff).
  apply transcribe_and_translate_inv in Htt as (_ & _ & Hcases).
  assert (Hsame : lang = fst (determine_language env eff method audio_data sr)).
  { destruct Hcases as [(-> & -> & _)|(Hne & -> & _)]; [reflexivity|].
    destruct Hlang as [Hl|Hl]; [now rewrite Hl|contradiction]. }
  rewrite Hmeth, Hsame. split.
  - intros l -> Hne.
    destruct Hval as [(_ & _ & [H|H])|(l' & H & _ & -> & -> & _)]; try congruence.
    inversion H. subst l'. split; [reflexivity|]. now apply Heff.
  - intros Hspec.
    destruct Hval as [(_ & -> & _)|(l & -> & Hne & _)]; [reflexivity|].
    destruct Hspec as [H|H]; [discriminate|]. inversion H. congruence.
Qed.

Lemma explicit_language_witness :
  exists resp log',
    transcribe_audio_route unavailable_env (Some " ML ") sample_audio 16000 []
      = (Returned resp, log') /\
    detection_method resp = "specified" /\ effective_language resp = "ml".
Proof.
  destruct (transcribe_audio_route unavailable_env (Some " ML ") sample_audio 16000 [])
    as [[resp|e] log'] eqn:Hrun; [|vm_compute in Hrun; discriminate].
  exists resp, log'. split; [reflexivity|].
  assert (Hne : " ML " <> "") by discriminate.
  exact (proj1 (explicit_language_is_honoured unavailable_env (Some " ML ") sample_audio
                  16000 [] resp log' Hrun) " ML " eq_refl Hne).
Defined.

Lemma route_after_transcription
    (env : Env) specified audio_data sr log eff method lang raw final log1 :
  validate_language specified = Returned (eff, method) ->
  audio_data <> [] ->
  transcribe_and_translate env
    (fst (determine_language env eff method audio_data sr))
    {| raw := audio_data; sampling_rate := sr |} log = (Returned (lang, raw, final), log1) ->
  transcribe_audio_route env specified audio_data sr log
    = match emr_and_suggestions env final log1 with
      | (Returned (emr_data, sg), log2) =>
          (Returned {| status := "success";
                       detection_method :=
                         snd (determine_language env eff method audio_data sr);
                       effective_language := lang;
                       raw_transcription := raw;
                       processed_text := final;
                       emr := emr_data;
                       suggestions := sg |}, log2)
      | (Raised e, log2) => (Raised (route_except e), log2)
      end.
Proof.
  intros Hval Hne Htt.
  unfold transcribe_audio_route, process_audio. rewrite Hval.
  rewrite (length_eqb_nonempty _ Hne).
  destruct (determine_language env eff method audio_data sr) as [l m].
  cbn [fst snd] in *. unfold try_except at 1. unfold bind at 1. rewrite Htt.
  unfold bind, ret, raise.
  destruct (emr_and_suggestions env final log1) as [[[emr_data sg]|e] log2]; reflexivity.
Qed.

(** X14. An empty transcription is not fatal: on an accepted request
    whose Transcribed stage yields the empty text, the route answers
    "success" with empty transcription and processed text and the two
    informational records, and nothing is sent to the remote service. *)
Theorem empty_transcription_degrades (env : Env) specified audio_data sr log eff method :
  validate_language specified = Returned (eff, method) ->
  audio_data <> [] ->
  let input := {| raw := audio_data; sampling_rate := sr |} in
  let resolved := determine_language env eff method audio_data sr in
  stage_text env (fst resolved) input = "" ->
  transcribe_audio_route env specified audio_data sr log
    = (Returned {| status := "success";
                   detection_method := snd resolved;
                   effective_language :=
                     if String.eqb (fst resolved) "ml" then "ml" else "en";
                   raw_transcription := "";
                   processed_text := "";
                   emr := [("info", "EMR not generated due to issues in prior steps.")];
                   suggestions :=
                     [("info", "Suggestions not generated due to issues in prior steps.")] |},
       log).
Proof.
  intros Hval Hne input resolved Hempty.
  assert (Htt : transcribe_and_translate env (fst resolved) input log
                = (Returned (if String.eqb (fst resolved) "ml" then "ml" else "en", "", ""),
                   log)).
  { revert Hempty. unfold stage_text, transcribe_and_translate, transcription_model_key.
    destruct (String.eqb_spec (fst resolved) "ml") as [Heq|Hneq]; intros ->.
    - rewrite Heq. reflexivity.
    - reflexivity. }
  rewrite (route_after_transcription env specified audio_data sr log eff method
             _ _ _ _ Hval Hne Htt).
  reflexivity.
Qed.

Lemma empty_transcription_witness :
  transcribe_audio_route silent_env (Some "ml") sample_audio 16000 []
    = (Returned {| status := "success";
                   detection_method := "specified";
                   effective_language := "ml";
                   raw_transcription := "";
                   processed_text := "";
                   emr := [("info", "EMR not generated due to issues in prior steps.")];
                   suggestions :=
                     [("info", "Suggestions not generated due to issues in prior steps.")] |},
       []).
Proof.
  assert (Hne : sample_audio <> []) by discriminate.
  exact (empty_transcription_degrades silent_env (Some "ml") sample_audio 16000 []
           (Some "ml") "specified" eq_refl Hne eq_refl).
Defined.

(** X15. An exception out of record extraction is not fatal: the route
    still answers "success", with an empty record and a suggestions
    object made of the single entry "error" that quotes the exception. *)
Theorem extraction_exception_degrades
    (env : Env) specified audio_data sr log eff method lang raw final log1 e log2 :
  validate_language specified = Returned (eff, method) ->
  audio_data <> [] ->
  let input := {| raw := audio_data; sampling_rate := sr |} in
  let resolved := determine_language env eff method audio_data sr in
  transcribe_and_translate env (fst resolved) input log = (Returned (lang, raw, final), log1) ->
  truthy final = true ->
  str_in "Error:" final = false ->
  extract_emr (remote env) final log1 = (Raised e, log2) ->
  transcribe_audio_route env specified audio_data sr log
    = (Returned {| status := "success";
                   detection_method := snd resolved;
                   effective_language := lang;
                   raw_transcription := raw;
                   processed_text := final;
                   emr := [];
                   suggestions :=
                     [("error", "Failed to process text with Gemini: " +:+ exn_str e)] |},
       log2).
Proof.
  intros Hval Hne input resolved Htt Hfin Herr Hex.
  rewrite (route_after_transcription env specified audio_data sr log eff method
             _ _ _ _ Hval Hne Htt).
  unfold emr_and_suggestions. rewrite Hfin, Herr. cbn [andb negb].
  unfold try_except, bind. rewrite Hex. reflexivity.
Qed.

Lemma extraction_exception_witness :
  transcribe_audio_route bad_header_env (Some "en") sample_audio 16000 []
    = (Returned {| status := "success";
                   detection_method := "specified";
                   effective_language := "en";
                   raw_transcription := "good morning doctor";
                   processed_text := "good morning doctor";
                   emr := [];
                   suggestions :=
                     [("error",
                       "Failed to process text with Gemini: invalid literal for int() with base 10")] |},
       [Enter FnExtractEmr; Post (emr_prompt "good morning doctor")]).
Proof.
  assert (Hne : sample_audio <> []) by discriminate.
  refine (extraction_exception_degrades bad_header_env (Some "en") sample_audio 16000 []
            (Some "en") "specified" "en" "good morning doctor" "good morning doctor" []
            (ValueError "invalid literal for int() with base 10")
            [Enter FnExtractEmr; Post (emr_prompt "good morning doctor")]
            eq_refl Hne _ eq_refl eq_refl _); vm_compute; reflexivity.
Defined.

Lemma meaningful_not_blank (emr_data : Dict) :
  is_meaningful_emr emr_data = true ->
  forallb is_not_mentioned (dict_values emr_data) = false /\ emr_data <> [].
Proof.
  unfold is_meaningful_emr, dict_values. intros H. split.
  - induction emr_data as [|[k v] d IH]; [discriminate|].
    cbn [map existsb forallb snd] in *.
    apply orb_prop in H as [H|H].
    + apply andb_prop in H as [_ H]. apply negb_true_iff in H.
      unfold list_mem in H. cbn [existsb] in H.
      apply orb_false_elim in H as [H _]. unfold is_not_mentioned. now rewrite H.
    + rewrite (IH H). apply andb_false_r.
  - destruct emr_data; [discriminate|discriminate].
Qed.

(** X16. When the extracted record passes the route's gate, suggestion
    generation is entered and does call the client; if that call returns,
    the response carries the record and a suggestions object with
    exactly the five suggestion keys, and if it raises, the single entry
    "error". *)
Theorem meaningful_record_gets_suggestions
    (env : Env) specified audio_data sr log eff method lang raw final log1 emr_data log2 :
  validate_language specified = Returned (eff, method) ->
  audio_data <> [] ->
  let input := {| raw := audio_data; sampling_rate := sr |} in
  let resolved := determine_language env eff method audio_data sr in
  transcribe_and_translate env (fst resolved) input log = (Returned (lang, raw, final), log1) ->
  truthy final = true ->
  str_in "Error:" final = false ->
  extract_emr (remote env) final log1 = (Returned emr_data, log2) ->
  is_meaningful_emr emr_data = true ->
  let response sg :=
    {| status := "success";
       detection_method := snd resolved;
       effective_language := lang;
       raw_transcription := raw;
       processed_text := final;
       emr := emr_data;
       suggestions := sg |} in
  match call_gemini_api (remote env) (suggestions_prompt (emr_summary emr_data)) 2 2
          (log2 ++ [Enter FnGenerateSuggestions]) with
  | (Returned result, log3) =>
      transcribe_audio_route env specified audio_data sr log
        = (Returned (response (suggestions_of_result result)), log3) /\
      full_suggestions result (suggestions_of_result result)
  | (Raised e, log3) =>
      transcribe_audio_route env specified audio_data sr log
        = (Returned (response (gemini_failure e)), log3)
  end.
Proof.
  intros Hval Hne input resolved Htt Hfin Herr Hex Hgate response.
  destruct (meaningful_not_blank emr_data Hgate) as [Hblank Hnonempty].
  pose proof (generate_suggestions_run (remote env) emr_data log2 Hblank) as Hrun.
  assert (Hroute :
            transcribe_audio_route env specified audio_data sr log
            = match generate_suggestions (remote env) emr_data log2 with
              | (Returned sg, log3) => (Returned (response sg), log3)
              | (Raised e, log3) => (Returned (response (gemini_failure e)), log3)
              end).
  { rewrite (route_after_transcription env specified audio_data sr log eff method
               _ _ _ _ Hval Hne Htt).
    unfold emr_and_suggestions. rewrite Hfin, Herr. cbn [andb negb].
    unfold try_except at 1. unfold bind at 1. rewrite Hex.
    rewrite (length_eqb_nonempty _ Hnonempty), Hgate. cbn [negb].
    unfold try_except, bind, ret.
    destruct (generate_suggestions (remote env) emr_data log2) as [[sg|e] log3];
      reflexivity. }
  rewrite Hroute.
  destruct (call_gemini_api (remote env) (suggestions_prompt (emr_summary emr_data)) 2 2
              (log2 ++ [Enter FnGenerateSuggestions])) as [[result|e] log3].
  - destruct Hrun as [-> Hfull]. split; [reflexivity|exact Hfull].
  - rewrite Hrun. reflexivity.
Qed.

Lemma meaningful_record_witness :
  exists log3,
    transcribe_audio_route cough_env (Some "en") sample_audio 16000 []
      = (Returned {| status := "success";
                     detection_method := "specified";
                     effective_language := "en";
                     raw_transcription := "good morning doctor";
                     processed_text := "good morning doctor";
                     emr := emr_of_result (Some cough_answer);
                     suggestions := suggestions_of_result (Some cough_answer) |},
         log3).
Proof.
  assert (Hne : sample_audio <> []) by discriminate.
  eexists.
  refine (proj1 (meaningful_record_gets_suggestions cough_env (Some "en") sample_audio 16000
                   [] (Some "en") "specified" "en" "good morning doctor"
                   "good morning doctor" [] (emr_of_result (Some cough_answer)) _
                   eq_refl Hne _ eq_refl eq_refl _ _)); vm_compute; reflexivity.
Defined.

(** X17. A translation that fails degrades: on an accepted Malayalam
    request with a non-empty, marker-free transcription, if the client's
    call for the translation returns the failure value or an empty text,
    or raises, the route answers "success" with an empty processed text
    and the two informational records; record extraction and suggestion
    generation are not entered. *)
Theorem failed_translation_degrades
    (env : Env) specified audio_data sr log eff method res log' :
  validate_language specified = Returned (eff, method) ->
  audio_data <> [] ->
  let input := {| raw := audio_data; sampling_rate := sr |} in
  let resolved := determine_language env eff method audio_data sr in
  let raw := strip (text (run_pipeline_async (asr_models env) "whisper_ml" input)) in
  fst resolved = "ml" ->
  str_in "Error:" raw = false ->
  truthy raw = true ->
  call_gemini_api (remote env) (translate_prompt raw) 2 2 (log ++ [Enter FnTranslate])
    = (res, log') ->
  (forall t, res = Returned (Some t) -> t = "") ->
  transcribe_audio_route env specified audio_data sr log
    = (Returned {| status := "success";
                   detection_method := snd resolved;
                   effective_language := "ml";
                   raw_transcription := raw;
                   processed_text := "";
                   emr := [("info", "EMR not generated due to issues in prior steps.")];
                   suggestions :=
                     [("info", "Suggestions not generated due to issues in prior steps.")] |},
       log').
Proof.
  intros Hval Hne input resolved raw Hml Herr Hraw Hcall Hres.
  assert (Htt : transcribe_and_translate env (fst resolved) input log
                = (Returned ("ml", raw, ""), log')).
  { rewrite Hml. unfold transcribe_and_translate. cbn [String.eqb Ascii.eqb Bool.eqb].
    fold input. fold raw. rewrite Herr, Hraw. cbn [negb].
    unfold translate_with_gemini, try_except, bind, emit, ret. rewrite Hraw. cbn [negb].
    rewrite Hcall. destruct res as [[t|]|e]; try reflexivity.
    rewrite (Hres t eq_refl). reflexivity. }
  rewrite (route_after_transcription env specified audio_data sr log eff method
             _ _ _ _ Hval Hne Htt).
  reflexivity.
Qed.

Lemma failed_translation_witness :
  transcribe_audio_route unconfigured_ml_env (Some "ml") sample_audio 16000 []
    = (Returned {| status := "success";
                   detection_method := "specified";
                   effective_language := "ml";
                   raw_transcription := "rogikku pani undu";
                   processed_text := "";
                   emr := [("info", "EMR not generated due to issues in prior steps.")];
                   suggestions :=
                     [("info", "Suggestions not generated due to issues in prior steps.")] |},
       [Enter FnTranslate]).
Proof.
  assert (Hne : sample_audio <> []) by discriminate.
  refine (failed_translation_degrades unconfigured_ml_env (Some "ml") sample_audio 16000 []
            (Some "ml") "specified" (Returned None) [Enter FnTranslate]
            eq_refl Hne eq_refl eq_refl eq_refl eq_refl _).
  intros t H. discriminate H.
Defined.



(** X19. Without a configured API URL an English request still
    succeeds: for a non-empty, marker-free transcription the response
    carries the five record keys all bound to "Not mentioned" and the
    informational suggestions entry, and no request is sent. *)
Theorem unconfigured_service_degrades
    (env : Env) specified audio_data sr log eff method :
  GEMINI_API_URL (remote env) = None ->
  validate_language specified = Returned (eff, method) ->
  audio_data <> [] ->
  let input := {| raw := audio_data; sampling_rate := sr |} in
  let resolved := determine_language env eff method audio_data sr in
  let raw := strip (text (run_pipeline_async (asr_models env) "whisper_en" input)) in
  fst resolved <> "ml" ->
  str_in "Error:" raw = false ->
  raw <> "" ->
  transcribe_audio_route env specified audio_data sr log
    = (Returned {| status := "success";
                   detection_method := snd resolved;
                   effective_language := "en";
                   raw_transcription := raw;
                   processed_text := raw;
                   emr := map (fun k => (k, "Not mentioned")) required_keys;
                   suggestions :=
                     [("info",
                       "Suggestions not generated due to non-informative EMR data.")] |},
       log ++ [Enter FnExtractEmr]).
Proof.
  intros Hurl Hval Hne input resolved raw Hlang Herr Hraw.
  apply truthy_nonempty in Hraw.
  assert (Htt : transcribe_and_translate env (fst resolved) input log
                = (Returned ("en", raw, raw), log)).
  { unfold transcribe_and_translate.
    destruct (String.eqb_spec (fst resolved) "ml") as [Heq|_]; [contradiction|].
    fold input. fold raw. rewrite Herr. reflexivity. }
  rewrite (route_after_transcription env specified audio_data sr log eff method
             _ _ _ _ Hval Hne Htt).
  unfold emr_and_suggestions. rewrite Hraw, Herr. cbn [andb negb].
  unfold try_except, bind, extract_emr, bind, emit, ret, call_gemini_api.
  rewrite Hraw, Hurl. reflexivity.
Qed.

Lemma unconfigured_service_witness :
  transcribe_audio_route unconfigured_en_env None sample_audio 16000 []
    = (Returned {| status := "success";
                   detection_method := "automatic";
                   effective_language := "en";
                   raw_transcription := "good morning doctor";
                   processed_text := "good morning doctor";
                   emr := map (fun k => (k, "Not mentioned")) required_keys;
                   suggestions :=
                     [("info",
                       "Suggestions not generated due to non-informative EMR data.")] |},
       [Enter FnExtractEmr]).
Proof.
  assert (Hne : sample_audio <> []) by discriminate.
  refine (unconfigured_service_degrades unconfigured_en_env None sample_audio 16000 []
            None "automatic" eq_refl eq_refl Hne _ eq_refl _);
    vm_compute; discriminate.
Defined.

(** ** The suggestion routes *)

Lemma has_char_cons (c a : ascii) (s : string) :
  has_char c (String a s) = Ascii.eqb c a || has_char c s.
Proof. unfold has_char. simpl. destruct (Ascii.eqb c a); reflexivity. Qed.

Lemma split_pieces (c : ascii) (s : string) :
  split c s <> [] /\ Forall (fun x => has_char c x = false) (split c s).
Proof.
  induction s as [|a s [Hne IH]].
  - split; [discriminate|]. repeat constructor.
  - cbn [split]. destruct (Ascii.eqb_spec a c) as [->|Hac].
    + split; [discriminate|]. constructor; [reflexivity|exact IH].
    + destruct (split c s) as [|hd tl]; [congruence|].
      split; [discriminate|]. inversion IH as [|x l Hhd Htl]. subst.
      constructor; [|exact Htl].
      rewrite has_char_cons, Hhd.
      destruct (Ascii.eqb_spec c a); [congruence|reflexivity].
Qed.

Lemma after_last_colon_clean (s : string) : has_char colon (after_last_colon s) = false.
Proof.
  unfold after_last_colon. destruct (split_pieces colon s) as [_ H].
  induction H as [|x l Hx Hl IH]; [reflexivity|].
  destruct l; [exact Hx|exact IH].
Qed.

(** What follows the last colon of a text that has one. *)
Lemma after_last_colon_app (a b : string) :
  has_char colon b = false ->
  after_last_colon (a +:+ String colon b) = b.
Proof.
  intros Hb. unfold after_last_colon.
  assert (Hsingle : split colon b = [b]).
  { clear a. induction b as [|x b IH]; [reflexivity|].
    rewrite has_char_cons in Hb. apply orb_false_elim in Hb as [Hx Hb].
    cbn [split]. rewrite (IH Hb).
    destruct (Ascii.eqb_spec x colon) as [->|]; [|reflexivity].
    rewrite Ascii.eqb_refl in Hx. discriminate. }
  assert (H : exists hd tl, split colon (a +:+ String colon b) = hd :: tl ++ [b]).
  { induction a as [|x a (hd & tl & IH)].
    - exists "", []. change ("" +:+ String colon b) with (String colon b).
      cbn [split]. rewrite Ascii.eqb_refl, Hsingle. reflexivity.
    - change (String x a +:+ String colon b) with (String x (a +:+ String colon b)).
      cbn [split]. rewrite IH. destruct (Ascii.eqb x colon).
      + exists "", (hd :: tl). reflexivity.
      + exists (String x hd), tl. reflexivity. }
  destruct H as (hd & tl & ->).
  change (hd :: tl ++ [b]) with ((hd :: tl) ++ [b]). apply last_last.
Qed.

Lemma remove_char_clean (c : ascii) (s : string) : has_char c (remove_char c s) = false.
Proof.
  induction s as [|a s IH]; [reflexivity|].
  cbn [remove_char]. destruct (Ascii.eqb_spec a c) as [->|Hne]; [exact IH|].
  rewrite has_char_cons, IH. destruct (Ascii.eqb_spec c a); [congruence|reflexivity].
Qed.

Lemma remove_char_keeps_clean (c d : ascii) (s : string) :
  has_char c s = false -> has_char c (remove_char d s) = false.
Proof.
  induction s as [|a s IH]; [reflexivity|].
  rewrite has_char_cons. intros H. apply orb_false_elim in H as [Ha Hs].
  cbn [remove_char]. destruct (Ascii.eqb a d); [now apply IH|].
  rewrite has_char_cons, Ha. now apply IH.
Qed.

Lemma strip_keeps_clean (c : ascii) (s : string) :
  is_space c = false -> has_char c s = false -> has_char c (strip s) = false.
Proof.
  intros Hc Hs. unfold has_char in *. rewrite str_in_strip; [exact Hs|exact Hc|].
  simpl. now rewrite Hc.
Qed.

Lemma get_field_outcome (data : Json) (key : string) (log : list Event) :
  (exists v, get_field data key log = (Returned v, log)) \/
  (exists what, get_field data key log = (Raised (ValueError what), log)).
Proof.
  unfold get_field, attribute_error, ret, raise.
  destruct data as [| | | | |d]; eauto.
  destruct (assoc_get key d) as [[| | |s| |]|]; eauto.
Qed.

(** The only exception the client lets out is the [ValueError] of an
    unreadable [Retry-After]. *)
Lemma attempt_loop_raises (service : Service) (prompt : string) (retries : Z)
    (attempts : list Z) :
  forall (delay : Z) (log : list Event) (e : Exn) (log' : list Event),
    attempt_loop service prompt retries attempts delay log = (Raised e, log') ->
    exists msg, e = ValueError msg.
Proof.
  induction attempts as [|attempt rest IH]; intros delay log e log'.
  - simpl. unfold ret. congruence.
  - cbn [attempt_loop]. unfold bind at 1. unfold post.
    assert (Hgo : forall d1 d2,
               (sleep d1 ;;; attempt_loop service prompt retries rest d2)
                 (log ++ [Post prompt]) = (Raised e, log') -> exists msg, e = ValueError msg).
    { intros d1 d2. unfold bind, sleep, emit. apply IH. }
    destruct (service log prompt) as [status header| | | |result].
    + destruct ((status =? 429)%Z && (attempt <? retries)%Z).
      * destruct header as [|R|msg]; [apply Hgo|apply Hgo|].
        unfold raise. intros H. inversion H. eauto.
      * destruct ((500 <=? status)%Z && (status <? 600)%Z && (attempt <? retries)%Z);
          [apply Hgo|unfold ret; congruence].
    + destruct (attempt <? retries)%Z; [apply Hgo|unfold ret; congruence].
    + destruct (attempt <? retries)%Z; [apply Hgo|unfold ret; congruence].
    + destruct (retries <=? attempt)%Z; [unfold ret; congruence|apply Hgo].
    + destruct (parse_response result) as [t0| |].
      * unfold ret. congruence.
      * destruct (attempt <? retries)%Z; [apply Hgo|].
        unfold bind, ret. apply IH.
      * destruct (retries <=? attempt)%Z; [unfold ret; congruence|apply Hgo].
Qed.

Lemma call_gemini_api_raises (remote : Remote) (prompt : string) (retries delay : Z)
    (log : list Event) (e : Exn) (log' : list Event) :
  call_gemini_api remote prompt retries delay log = (Raised e, log') ->
  exists msg, e = ValueError msg.
Proof.
  unfold call_gemini_api.
  destruct (GEMINI_API_URL remote) as [api_url|]; [|unfold ret; congruence].
  destruct (negb (truthy api_url)); [unfold ret; congruence|].
  apply attempt_loop_raises.
Qed.

(** X20. Once the body is read, the doctor-suggestion route has four
    outcomes only: a suggestion that is trimmed and holds neither a
    colon nor a period;
    one of its two [BadRequest]s; or the [InternalServerError] with the
    generic message.  The message "Could not generate doctor suggestion
    at this time." never leaves the route. *)
Theorem doctor_suggestion_outcomes (remote : Remote) (data : Json) (log : list Event) :
  let out := fst (generate_doctor_suggestion_route remote data log) in
  (exists suggestion,
      out = Returned [("suggestion", suggestion)] /\
      has_char colon suggestion = false /\
      has_char period suggestion = false /\
      strip suggestion = suggestion) \/
  out = Raised (BadRequest "No JSON data received in the request body.") \/
  out = Raised (BadRequest "Please provide prediction result, symptoms, or health records.") \/
  out = Raised (InternalServerError
                  "An unexpected error occurred while generating the doctor suggestion.").
Proof.
  cbv zeta. unfold generate_doctor_suggestion_route, try_except.
  destruct (negb (json_truthy data)); [right; left; reflexivity|].
  unfold bind.
  destruct (get_field_outcome data "prediction" log) as [[prediction H1]|[w H1]];
    rewrite H1; [|right; right; right; reflexivity].
  destruct (get_field_outcome data "symptoms" log) as [[symptoms H2]|[w H2]];
    rewrite H2; [|right; right; right; reflexivity].
  destruct (get_field_outcome data "health_records" log) as [[records H3]|[w H3]];
    rewrite H3; [|right; right; right; reflexivity].
  destruct (negb (truthy prediction) && negb (truthy symptoms) && negb (truthy records));
    [right; right; left; reflexivity|].
  destruct (call_gemini_api remote (doctor_prompt prediction symptoms records) 2 2 log)
    as [[[t|]|e] log1] eqn:Hcall; try (right; right; right; reflexivity).
  2: { apply call_gemini_api_raises in Hcall as [msg ->]. right; right; right; reflexivity. }
  destruct (truthy t); [|right; right; right; reflexivity].
  left. eexists. split; [reflexivity|]. split; [|split].
  - apply strip_keeps_clean; [reflexivity|]. apply remove_char_keeps_clean.
    apply strip_keeps_clean; [reflexivity|]. apply after_last_colon_clean.
  - apply strip_keeps_clean; [reflexivity|]. apply remove_char_clean.
  - apply strip_idem.
Qed.

(** X21. The doctor-suggestion route asks for input before it asks the
    service: when the body is an object whose three fields are missing or
    blank, it raises its [BadRequest] and sends nothing. *)
Theorem doctor_suggestion_needs_input (remote : Remote) (data : Json) (log : list Event) :
  json_truthy data = true ->
  (forall key, In key ["prediction"; "symptoms"; "health_records"] ->
               get_field data key log = (Returned "", log)) ->
  generate_doctor_suggestion_route remote data log
    = (Raised (BadRequest "Please provide prediction result, symptoms, or health records."),
       log).
Proof.
  intros Hdata Hfields.
  unfold generate_doctor_suggestion_route, try_except. rewrite Hdata. cbn [negb].
  unfold bind. rewrite !Hfields by (simpl; auto). reflexivity.
Qed.

Lemma doctor_suggestion_needs_input_witness :
  generate_doctor_suggestion_route garbage_remote blank_request []
    = (Raised (BadRequest "Please provide prediction result, symptoms, or health records."),
       []).
Proof.
  refine (doctor_suggestion_needs_input garbage_remote blank_request [] eq_refl _).
  intros key [<-|[<-|[<-|[]]]]; reflexivity.
Defined.

(** X22. The diet-plan route keeps only what follows the last colon of
    the answer: when the client returns a text [a ++ ":" ++ b] with no
    colon in [b], the plan is [b] trimmed, whatever [a] said. *)
Theorem diet_plan_keeps_the_last_segment
    (remote : Remote) (data : Json) (log log' : list Event)
    (preferences goals a b : string) :
  json_truthy data = true ->
  get_field data "preferences" log = (Returned preferences, log) ->
  get_field data "goals" log = (Returned goals, log) ->
  truthy preferences || truthy goals = true ->
  call_gemini_api remote (diet_prompt preferences goals) 2 2 log
    = (Returned (Some (a +:+ String colon b)), log') ->
  has_char colon b = false ->
  generate_diet_plan_route remote data log
    = (Returned [("diet_plan", strip b)], log').
Proof.
  intros Hdata Hpref Hgoals Hany Hcall Hb.
  unfold generate_diet_plan_route, try_except. rewrite Hdata. cbn [negb].
  unfold bind. rewrite Hpref, Hgoals.
  assert (Hblank : negb (truthy preferences) && negb (truthy goals) = false).
  { destruct (truthy preferences); destruct (truthy goals); try reflexivity. discriminate. }
  rewrite Hblank, Hcall.
  assert (Ht : truthy (a +:+ String colon b) = true) by (destruct a; reflexivity).
  rewrite Ht. unfold ret. now rewrite after_last_colon_app.
Qed.

Lemma diet_plan_witness :
  fst (generate_diet_plan_route diet_remote diet_request [])
    = Returned [("diet_plan", "rice and lentils")].
Proof.
  rewrite (diet_plan_keeps_the_last_segment diet_remote diet_request []
             [Post (diet_prompt "vegetarian" "")]
             "vegetarian" "" "Breakfast: oats. Lunch" " rice and lentils"
             eq_refl eq_refl eq_refl eq_refl eq_refl eq_refl).
  reflexivity.
Defined.

(** X23. Once the body is read, the diet-plan route has four outcomes
    only: a plan that is trimmed and holds no colon; one of its two [BadRequest]s; or the
    [InternalServerError] with the generic message. *)
Theorem diet_plan_outcomes (remote : Remote) (data : Json) (log : list Event) :
  let out := fst (generate_diet_plan_route remote data log) in
  (exists plan,
      out = Returned [("diet_plan", plan)] /\
      has_char colon plan = false /\
      strip plan = plan) \/
  out = Raised (BadRequest "No JSON data received in the request body.") \/
  out = Raised (BadRequest "Please provide dietary preferences or health goals.") \/
  out = Raised (InternalServerError
                  "An unexpected error occurred while generating the diet plan.").
Proof.
  cbv zeta. unfold generate_diet_plan_route, try_except.
  destruct (negb (json_truthy data)); [right; left; reflexivity|].
  unfold bind.
  destruct (get_field_outcome data "preferences" log) as [[preferences H1]|[w H1]];
    rewrite H1; [|right; right; right; reflexivity].
  destruct (get_field_outcome data "goals" log) as [[goals H2]|[w H2]];
    rewrite H2; [|right; right; right; reflexivity].
  destruct (negb (truthy preferences) && negb (truthy goals));
    [right; right; left; reflexivity|].
  destruct (call_gemini_api remote (diet_prompt preferences goals) 2 2 log)
    as [[[t|]|e] log1] eqn:Hcall; try (right; right; right; reflexivity).
  2: { apply call_gemini_api_raises in Hcall as [msg ->]. right; right; right; reflexivity. }
  destruct (truthy t); [|right; right; right; reflexivity].
  left. eexists. split; [reflexivity|]. split.
  - apply strip_keeps_clean; [reflexivity|]. apply after_last_colon_clean.
  - apply strip_idem.
Qed.

(** ** Failures and traffic of the route *)

Lemma transcribe_and_translate_raised (env : Env) lang input log e log1 :
  transcribe_and_translate env lang input log = (Raised e, log1) ->
  log1 = log /\
  e = InternalServerError ("Transcription failed: " +:+ stage_text env lang input).
Proof.
  unfold transcribe_and_translate, stage_text, transcription_model_key.
  destruct (String.eqb lang "ml").
  - set (r := strip (text (run_pipeline_async (asr_models env) "whisper_ml" input))).
    destruct (str_in "Error:" r).
    + unfold raise. intros H. inversion H. auto.
    + destruct (negb (truthy r)); [unfold ret; discriminate|].
      unfold bind, try_except, ret.
      destruct (translate_with_gemini (remote env) r log) as [[tr|e'] l1].
      * destruct (negb (truthy tr) || str_in "unavailable" (lower tr)); discriminate.
      * discriminate.
  - set (r := strip (text (run_pipeline_async (asr_models env) "whisper_en" input))).
    destruct (str_in "Error:" r).
    + unfold raise. intros H. inversion H. auto.
    + unfold ret. discriminate.
Qed.

(** X24. From the validation of the language on, the route never
    fails after it has contacted the remote service: whenever it raises, the event log is untouched and the
    exception is a [BadRequest] (language field, empty audio) or the
    [InternalServerError] "Transcription failed: ..." of the Transcribed
    stage. *)
Theorem route_fails_only_before_remote_calls
    (env : Env) specified audio_data sr log e log' :
  transcribe_audio_route env specified audio_data sr log = (Raised e, log') ->
  log' = log /\
  ((exists description, e = BadRequest description) \/
   (exists t, str_in "Error:" t = true /\
              e = InternalServerError ("Transcription failed: " +:+ t))).
Proof.
  unfold transcribe_audio_route.
  destruct (validate_language specified) as [[eff method]|e0] eqn:Hval.
  - unfold try_except, process_audio.
    destruct (length audio_data =? 0)%nat.
    + unfold raise. intros H. inversion H. split; [reflexivity|]. left. eauto.
    + destruct (determine_language env eff method audio_data sr) as [l m].
      unfold bind.
      destruct (transcribe_and_translate env l _ log) as [[[[lang raw] final]|e1] log1] eqn:Htt.
      * destruct (emr_and_suggestions_returns env final log1) as ([emr_data sg] & log2 & ->).
        unfold ret. discriminate.
      * pose proof Htt as Hraised. apply transcribe_and_translate_raised in Hraised as [-> ->].
        unfold raise. intros H. inversion H. split; [reflexivity|]. right.
        eexists. split; [|reflexivity].
        destruct (str_in "Error:" (stage_text env l {| raw := audio_data; sampling_rate := sr |}))
          eqn:Hm; [reflexivity|].
        destruct (transcribe_not_fatal env l _ log Hm) as (l' & fin & l1 & Hok).
        rewrite Hok in Htt. discriminate.
  - unfold raise. intros H. inversion H. subst. split; [reflexivity|]. left.
    unfold validate_language in Hval.
    destruct specified as [l|]; [|discriminate].
    destruct (truthy l); [|discriminate].
    destruct (allowed_language (strip (lower l))); [discriminate|].
    inversion Hval. eauto.
Qed.

Lemma route_failure_witness :
  [] = ([] : list Event) /\
  ((exists description,
       InternalServerError "Transcription failed: Error: Pipeline 'whisper_en' not available."
       = BadRequest description) \/
   (exists t, str_in "Error:" t = true /\
              InternalServerError
                "Transcription failed: Error: Pipeline 'whisper_en' not available."
              = InternalServerError ("Transcription failed: " +:+ t))).
Proof.
  apply (route_fails_only_before_remote_calls unloaded_env (Some "en") sample_audio 16000 []).
  vm_compute. reflexivity.
Defined.

Lemma sleeps_app (l1 l2 : list Event) : sleeps (l1 ++ l2) = sleeps l1 ++ sleeps l2.
Proof.
  induction l1 as [|[p|d|f] l1 IH]; simpl; [reflexivity|exact IH| |exact IH].
  now rewrite IH.
Qed.

Lemma count_sleeps_app (l1 l2 : list Event) :
  count_sleeps (l1 ++ l2) = (count_sleeps l1 + count_sleeps l2)%nat.
Proof. unfold count_sleeps. now rewrite sleeps_app, length_app. Qed.

Lemma traffic_ret {A} (a : A) : traffic (ret a) 0 0.
Proof. intros log. exists []. simpl. rewrite app_nil_r. auto. Qed.

Lemma traffic_raise {A} (e : Exn) : traffic (@raise A e) 0 0.
Proof. intros log. exists []. simpl. rewrite app_nil_r. auto. Qed.

Lemma traffic_enter (f : Fn) : traffic (emit (Enter f)) 0 0.
Proof. intros log. exists [Enter f]. simpl. auto. Qed.

Lemma traffic_weaken {A} (m : M A) p n p' n' :
  traffic m p n -> (p <= p')%nat -> (n <= n')%nat -> traffic m p' n'.
Proof.
  intros H Hp Hn log. destruct (H log) as (events & He & H1 & H2).
  exists events. split; [exact He|]. lia.
Qed.

Lemma traffic_bind {A B} (m : M A) (k : A -> M B) p1 n1 p2 n2 :
  traffic m p1 n1 -> (forall a, traffic (k a) p2 n2) ->
  traffic (bind m k) (p1 + p2) (n1 + n2).
Proof.
  intros Hm Hk log. unfold bind.
  destruct (Hm log) as (ev1 & He1 & Hp1 & Hn1).
  destruct (m log) as [[a|e] log1]; simpl in He1; subst log1.
  - destruct (Hk a (log ++ ev1)) as (ev2 & He2 & Hp2 & Hn2).
    exists (ev1 ++ ev2). rewrite He2, app_assoc, count_posts_app, count_sleeps_app.
    split; [reflexivity|]. lia.
  - exists ev1. simpl. split; [reflexivity|]. lia.
Qed.

Lemma traffic_try {A} (m : M A) (h : Exn -> M A) p n :
  traffic m p n -> (forall e, traffic (h e) 0 0) -> traffic (try_except m h) p n.
Proof.
  intros Hm Hh log. unfold try_except.
  destruct (Hm log) as (ev1 & He1 & Hp1 & Hn1).
  destruct (m log) as [[a|e] log1]; simpl in He1; subst log1.
  - exists ev1. simpl. auto.
  - destruct (Hh e (log ++ ev1)) as (ev2 & He2 & Hp2 & Hn2).
    exists (ev1 ++ ev2). rewrite He2, app_assoc, count_posts_app, count_sleeps_app.
    split; [reflexivity|]. lia.
Qed.

Lemma traffic_call (remote : Remote) (prompt : string) :
  traffic (call_gemini_api remote prompt 2 2) 3 2.
Proof.
  intros log. unfold call_gemini_api.
  destruct (GEMINI_API_URL remote) as [api_url|].
  2: { exists []. simpl. rewrite app_nil_r. split; [reflexivity|].
       unfold count_posts, count_sleeps. simpl. lia. }
  destruct (negb (truthy api_url)).
  { exists []. simpl. rewrite app_nil_r. split; [reflexivity|].
    unfold count_posts, count_sleeps. simpl. lia. }
  destruct (attempt_loop_footprint (gemini remote) prompt 2 3 0 2 log)
    as (events & Hev & _ & Hposts & Hsl); [lia|].
  exists events. split; [exact Hev|].
  assert (H3 : 3%nat <> 0%nat) by lia. specialize (Hsl H3). lia.
Qed.

Lemma traffic_translate (remote : Remote) (text : string) :
  traffic (translate_with_gemini remote text) 3 2.
Proof.
  unfold translate_with_gemini.
  apply (traffic_bind _ _ 0 0 3 2); [apply traffic_enter|]. intros _.
  destruct (negb (truthy text)).
  - eapply traffic_weaken; [apply traffic_ret|lia|lia].
  - apply (traffic_weaken _ (3 + 0) (2 + 0)); [|lia|lia].
    apply traffic_bind; [apply traffic_call|].
    intros [t|]; [destruct (truthy t)|]; apply traffic_ret.
Qed.

Lemma traffic_extract (remote : Remote) (text : string) :
  traffic (extract_emr remote text) 3 2.
Proof.
  unfold extract_emr.
  apply (traffic_bind _ _ 0 0 3 2); [apply traffic_enter|]. intros _.
  destruct (negb (truthy text)).
  - eapply traffic_weaken; [apply traffic_ret|lia|lia].
  - apply (traffic_weaken _ (3 + 0) (2 + 0)); [|lia|lia].
    apply traffic_bind; [apply traffic_call|]. intros r. apply traffic_ret.
Qed.

Lemma traffic_generate (remote : Remote) (emr_data : Dict) :
  traffic (generate_suggestions remote emr_data) 3 2.
Proof.
  unfold generate_suggestions.
  apply (traffic_bind _ _ 0 0 3 2); [apply traffic_enter|]. intros _.
  match goal with |- context [if ?b then _ else _] => destruct b end.
  - eapply traffic_weaken; [apply traffic_ret|lia|lia].
  - cbv zeta. match goal with |- context [if ?b then _ else _] => destruct b end.
    + eapply traffic_weaken; [apply traffic_ret|lia|lia].
    + apply (traffic_weaken _ (3 + 0) (2 + 0)); [|lia|lia].
      apply traffic_bind; [apply traffic_call|]. intros r. apply traffic_ret.
Qed.

Lemma traffic_emr_and_suggestions (env : Env) (final : string) :
  traffic (emr_and_suggestions env final) 6 4.
Proof.
  unfold emr_and_suggestions.
  destruct (truthy final && negb (str_in "Error:" final)).
  2: { eapply traffic_weaken; [apply traffic_ret|lia|lia]. }
  apply traffic_try; [|intros e; apply traffic_ret].
  apply (traffic_bind _ _ 3 2 3 2); [apply traffic_extract|]. intros emr_data.
  destruct (negb (length emr_data =? 0)%nat).
  2: { eapply traffic_weaken; [apply traffic_ret|lia|lia]. }
  destruct (is_meaningful_emr emr_data).
  2: { eapply traffic_weaken; [apply traffic_ret|lia|lia]. }
  apply traffic_try; [|intros e; apply traffic_ret].
  apply (traffic_weaken _ (3 + 0) (2 + 0)); [|lia|lia].
  apply traffic_bind; [apply traffic_generate|]. intros sg. apply traffic_ret.
Qed.

Lemma traffic_transcribe (env : Env) (lang : string) (input : AudioInput) :
  traffic (transcribe_and_translate env lang input) 3 2.
Proof.
  unfold transcribe_and_translate.
  destruct (String.eqb lang "ml"); cbv zeta.
  - match goal with |- context [if ?b then _ else _] => destruct b end.
    { eapply traffic_weaken; [apply traffic_raise|lia|lia]. }
    match goal with |- context [if ?b then _ else _] => destruct b end.
    { eapply traffic_weaken; [apply traffic_ret|lia|lia]. }
    apply (traffic_weaken _ (3 + 0) (2 + 0)); [|lia|lia].
    apply traffic_bind; [|intros t; apply traffic_ret].
    apply traffic_try; [|intros e; apply traffic_ret].
    apply (traffic_weaken _ (3 + 0) (2 + 0)); [|lia|lia].
    apply traffic_bind; [apply traffic_translate|].
    intros t. match goal with |- context [if ?b then _ else _] => destruct b end;
      apply traffic_ret.
  - match goal with |- context [if ?b then _ else _] => destruct b end.
    + eapply traffic_weaken; [apply traffic_raise|lia|lia].
    + eapply traffic_weaken; [apply traffic_ret|lia|lia].
Qed.

(** X25. One request to the route costs the remote service at most nine
    requests (three calls of at most three attempts each) and makes the
    route sleep at most six times, whatever the models, the classifier
    and the service do. *)
Theorem route_traffic_is_bounded
    (env : Env) specified (audio_data : list Sample) (sr : Z) (log : list Event) :
  exists events,
    snd (transcribe_audio_route env specified audio_data sr log) = log ++ events /\
    (count_posts events <= 9)%nat /\ (count_sleeps events <= 6)%nat.
Proof.
  revert log. change (traffic (transcribe_audio_route env specified audio_data sr) 9 6).
  unfold transcribe_audio_route.
  destruct (validate_language specified) as [[eff method]|e].
  2: { eapply traffic_weaken; [apply traffic_raise|lia|lia]. }
  apply traffic_try; [|intros e; apply traffic_raise].
  unfold process_audio.
  destruct (length audio_data =? 0)%nat.
  { eapply traffic_weaken; [apply traffic_raise|lia|lia]. }
  destruct (determine_language env eff method audio_data sr) as [l m].
  apply (traffic_bind _ _ 3 2 6 4); [apply traffic_transcribe|].
  intros [[lang raw] final].
  apply (traffic_weaken _ (6 + 0) (4 + 0)); [|lia|lia].
  apply traffic_bind; [apply traffic_emr_and_suggestions|].
  intros [emr_data sg]. apply traffic_ret.
Qed.

(** ** The label in front of a translation *)

Lemma lower_app (a b : string) : lower (a +:+ b) = lower a +:+ lower b.
Proof. induction a as [|c a IH]; [reflexivity|]. simpl. now rewrite IH. Qed.

Lemma lower_length (s : string) : String.length (lower s) = String.length s.
Proof. induction s as [|c s IH]; [reflexivity|]. simpl. now rewrite IH. Qed.

Lemma startswith_app (p y : string) : startswith p (p +:+ y) = true.
Proof.
  induction p as [|c p IH]; [reflexivity|]. simpl. now rewrite Ascii.eqb_refl.
Qed.

Lemma lstrip_idem (s : string) : lstrip (lstrip s) = lstrip s.
Proof.
  destruct (lstrip_head s) as [->|(c & r & -> & Hc)]; [reflexivity|].
  simpl. now rewrite Hc.
Qed.

Lemma not_newline (c : ascii) (s : string) :
  has_char newline (String c s) = false ->
  Ascii.eqb c newline = false /\ has_char newline s = false.
Proof.
  rewrite has_char_cons. intros H. apply orb_false_elim in H as [Hc Hs].
  split; [|exact Hs]. destruct (Ascii.eqb_spec c newline) as [->|]; [|reflexivity].
  rewrite Ascii.eqb_refl in Hc. discriminate.
Qed.

Lemma sub_label_plain (s : string) :
  has_char newline s = false -> sub_label false 0 false s = s.
Proof.
  induction s as [|c s IH]; [reflexivity|].
  intros H. apply not_newline in H as [Hc Hs].
  cbn [sub_label andb]. now rewrite Hc, IH.
Qed.

Lemma sub_label_after_label (s : string) :
  has_char newline s = false -> sub_label false 0 true s = lstrip s.
Proof.
  induction s as [|c s IH]; [reflexivity|].
  intros H. apply not_newline in H as [Hc Hs].
  cbn [sub_label lstrip andb]. destruct (is_space c).
  - rewrite Hc. now apply IH.
  - rewrite Hc. now rewrite sub_label_plain.
Qed.

Lemma sub_label_skip (l x : string) (b w : bool) :
  l <> "" -> sub_label b (String.length l) w (l +:+ x) = sub_label false 0 true x.
Proof.
  revert b w. induction l as [|c l IH]; intros b w Hne; [congruence|].
  destruct l as [|c' l'].
  - reflexivity.
  - change (String.length (String c (String c' l')))
      with (S (S (String.length l'))).
    change (String c (String c' l') +:+ x) with (String c (String c' l' +:+ x)).
    cbn [sub_label]. apply IH. discriminate.
Qed.

Lemma label_length_of (label x : string) :
  lower label = "english translation:" \/ label = "---" ->
  label <> "" /\ label_length (label +:+ x) = Some (String.length label).
Proof.
  intros [H| ->].
  - split; [intros ->; discriminate|].
    unfold label_length. rewrite lower_app, H, startswith_app.
    now rewrite <- (lower_length label), H.
  - split; [discriminate|reflexivity].
Qed.

(** X26. The label in front of a translation is dropped: when the
    client's answer is "english translation:" (in any letter case) or
    "---" followed by a text without line break, the translation returned
    is that text, trimmed. *)
Theorem translation_label_is_dropped
    (remote : Remote) (text : string) (log log' : list Event) (label x : string) :
  text <> "" ->
  lower label = "english translation:" \/ label = "---" ->
  has_char newline x = false ->
  call_gemini_api remote (translate_prompt text) 2 2 (log ++ [Enter FnTranslate])
    = (Returned (Some (label +:+ x)), log') ->
  translate_with_gemini remote text log = (Returned (strip x), log').
Proof.
  intros Htext Hlabel Hx Hcall. apply truthy_nonempty in Htext.
  destruct (label_length_of label x Hlabel) as [Hne Hlen].
  unfold translate_with_gemini, bind, emit, ret. rewrite Htext. cbn [negb].
  rewrite Hcall.
  destruct label as [|c l]; [congruence|].
  change (String c l +:+ x) with (String c (l +:+ x)) in *.
  cbn [truthy]. f_equal. f_equal.
  cbn [sub_label andb]. rewrite Hlen.
  change (String.length (String c l)) with (S (String.length l)). cbv iota.
  assert (Hrest : sub_label false (String.length l) (String.length l =? 0)%nat (l +:+ x)
                  = lstrip x).
  { destruct l as [|c' l'].
    - simpl. now apply sub_label_after_label.
    - rewrite sub_label_skip by discriminate. now apply sub_label_after_label. }
  rewrite Hrest. unfold strip. now rewrite lstrip_idem.
Qed.

Lemma translation_label_witness :
  translate_with_gemini labelled_remote "rogikku pani undu" []
    = (Returned "The patient has a fever.",
       [Enter FnTranslate; Post (translate_prompt "rogikku pani undu")]).
Proof.
  assert (Htext : "rogikku pani undu" <> "") by discriminate.
  exact (translation_label_is_dropped labelled_remote "rogikku pani undu" []
           [Enter FnTranslate; Post (translate_prompt "rogikku pani undu")]
           "ENGLISH Translation:" "   The patient has a fever."
           Htext (or_introl eq_refl) eq_refl eq_refl).
Defined.
